(** * telegram_bot_cv: the class resolver and the conversation handlers of
    [bot.py], embedded in Rocq.

    Python strings are sequences of Unicode code points and are modelled as
    lists of code points ([N]).  Sets of characters are [gset N]; dictionaries
    are [gmap]s or, where iteration order matters, association lists.  The
    file has two parts: the embedding of the program, then the facts about
    it. *)

From Stdlib Require Import QArith.
From stdpp Require Import gmap strings list.

(** ** Strings *)

Abbreviation char := N (only parsing).
Abbreviation str := (list N) (only parsing).
Abbreviation bytes := (list Byte.byte) (only parsing).

Module Utf8.
(** String literals of this file are UTF-8; [decode] turns one into the
    sequence of code points that the same literal denotes in Python. *)

Definition cont (b : N) : N := N.land b 63.

Fixpoint decode_N (fuel : nat) (bs : list N) : str :=
  match fuel, bs with
  | O, _ | _, [] => []
  | S fuel, b :: rest =>
      if (b <? 128)%N then b :: decode_N fuel rest
      else if (b <? 224)%N then
        match rest with
        | b1 :: rest => (N.land b 31 * 64 + cont b1)%N :: decode_N fuel rest
        | _ => []
        end
      else if (b <? 240)%N then
        match rest with
        | b1 :: b2 :: rest =>
            (N.land b 15 * 4096 + cont b1 * 64 + cont b2)%N :: decode_N fuel rest
        | _ => []
        end
      else
        match rest with
        | b1 :: b2 :: b3 :: rest =>
            (N.land b 7 * 262144 + cont b1 * 4096 + cont b2 * 64 + cont b3)%N
              :: decode_N fuel rest
        | _ => []
        end
  end.

Fixpoint to_N_list (s : string) : list N :=
  match s with
  | EmptyString => []
  | String a s => Ascii.N_of_ascii a :: to_N_list s
  end.

Definition decode (s : string) : str :=
  decode_N (String.length s) (to_N_list s).

End Utf8.

Abbreviation py := Utf8.decode (only parsing).

(** ** The Unicode tables of the Python runtime

    [str.lower], [str.isalnum] and [str.isspace] (which also decides [\s] and
    [str.strip]) are tables of the interpreter, not of this repository: the
    embedding takes them as parameters (class [Unicode] below).  [Basic] gives
    their rows for Basic Latin and for the Russian letters, which is what the
    examples of this file are run with; it treats every other code point as a
    caseless symbol. *)

Module Basic.

Definition lower_char (c : char) : char :=
  if (65 <=? c)%N && (c <=? 90)%N then (c + 32)%N
  else if (1040 <=? c)%N && (c <=? 1071)%N then (c + 32)%N
  else if (1024 <=? c)%N && (c <=? 1039)%N then (c + 80)%N
  else c.

Definition lower (s : str) : str := map lower_char s.

Definition isalnum (c : char) : bool :=
  (48 <=? c)%N && (c <=? 57)%N
  || (65 <=? c)%N && (c <=? 90)%N
  || (97 <=? c)%N && (c <=? 122)%N
  || (1024 <=? c)%N && (c <=? 1119)%N.

Definition isspace (c : char) : bool :=
  (9 <=? c)%N && (c <=? 13)%N
  || (28 <=? c)%N && (c <=? 32)%N
  || (c =? 133)%N || (c =? 160)%N.

End Basic.

(** ** [YOLOObjectDetector.class_translations] (detection.py)

    A dict literal; iteration follows insertion order, so it is kept as an
    association list from the English name to the Russian name. *)

Module YOLOObjectDetector.

Definition class_translations : list (str * str) :=
  Eval vm_compute in
  map (fun p : string * string => (py p.1, py p.2))
  [
   ("person", "человек");
   ("bicycle", "велосипед");
   ("car", "автомобиль");
   ("motorcycle", "мотоцикл");
   ("airplane", "самолет");
   ("bus", "автобус");
   ("train", "поезд");
   ("truck", "грузовик");
   ("boat", "лодка");
   ("traffic light", "светофор");
   ("fire hydrant", "пожарный гидрант");
   ("stop sign", "знак стоп");
   ("parking meter", "паркомат");
   ("bench", "скамейка");
   ("bird", "птица");
   ("cat", "кот");
   ("dog", "собака");
   ("horse", "лошадь");
   ("sheep", "овца");
   ("cow", "корова");
   ("elephant", "слон");
   ("bear", "медведь");
   ("zebra", "зебра");
   ("giraffe", "жираф");
   ("backpack", "рюкзак");
   ("umbrella", "зонт");
   ("handbag", "сумка");
   ("tie", "галстук");
   ("suitcase", "чемодан");
   ("frisbee", "фрисби");
   ("skis", "лыжи");
   ("snowboard", "сноуборд");
   ("sports ball", "мяч");
   ("kite", "воздушный змей");
   ("baseball bat", "бейсбольная бита");
   ("baseball glove", "бейсбольная перчатка");
   ("skateboard", "скейтборд");
   ("surfboard", "доска для серфинга");
   ("tennis racket", "теннисная ракетка");
   ("bottle", "бутылка");
   ("wine glass", "бокал");
   ("cup", "чашка");
   ("fork", "вилка");
   ("knife", "нож");
   ("spoon", "ложка");
   ("bowl", "миска");
   ("banana", "банан");
   ("apple", "яблоко");
   ("sandwich", "сэндвич");
   ("orange", "апельсин");
   ("broccoli", "брокколи");
   ("carrot", "морковь");
   ("hot dog", "хот-дог");
   ("pizza", "пицца");
   ("donut", "пончик");
   ("cake", "торт");
   ("chair", "стул");
   ("couch", "диван");
   ("potted plant", "растение в горшке");
   ("bed", "кровать");
   ("dining table", "обеденный стол");
   ("toilet", "туалет");
   ("tv", "телевизор");
   ("laptop", "ноутбук");
   ("mouse", "мышь");
   ("remote", "пульт");
   ("keyboard", "клавиатура");
   ("cell phone", "телефон");
   ("microwave", "микроволновка");
   ("oven", "духовка");
   ("toaster", "тостер");
   ("sink", "раковина");
   ("refrigerator", "холодильник");
   ("book", "книга");
   ("clock", "часы");
   ("vase", "ваза");
   ("scissors", "ножницы");
   ("teddy bear", "плюшевый мишка");
   ("hair drier", "фен");
   ("toothbrush", "зубная щетка")
  ].

End YOLOObjectDetector.

(** ** Similarity scorer and class resolver *)

(** The tables of the runtime: [str.lower], [str.isalnum], [str.isspace]. *)
Class Unicode := {
  py_lower : str -> str;
  py_isalnum : char -> bool;
  py_isspace : char -> bool;
}.

Section Resolver.

Context {runtime : Unicode}.

(** *** [calculate_similarity] *)

Fixpoint startswith (a b : str) : bool :=
  match a, b with
  | [], _ => true
  | _ :: _, [] => false
  | x :: a', y :: b' => bool_decide (x = y) && startswith a' b'
  end.

(** [a in b] on strings: [a] occurs in [b] as a contiguous block. *)
Fixpoint str_in (a b : str) : bool :=
  startswith a b ||
  match b with
  | [] => false
  | _ :: b' => str_in a b'
  end.

(** The scores are the floats [1.0], [0.8] and [len(..) / len(..)] with at
    most 1114112 in either length.  Rounding to the nearest double is monotone
    and keeps two such quotients, and each of them and [0.6], apart unless
    they are equal as rationals, so every comparison the program makes on the
    floats has the outcome it has on the rationals below. *)
Definition calculate_similarity (str1 str2 : str) : Q :=
  if decide (str1 = str2) then 1%Q
  else if str_in str1 str2 || str_in str2 str1 then (4 # 5)%Q
  else
    let common_chars : gset N := list_to_set str1 ∩ list_to_set str2 in
    let total_chars : gset N := list_to_set str1 ∪ list_to_set str2 in
    if decide (total_chars = ∅) then 0%Q
    else (inject_Z (Z.of_nat (size common_chars))
          / inject_Z (Z.of_nat (size total_chars)))%Q.

(** *** [parse_user_classes] *)

(** [\w] of a [str] pattern: alphanumeric or the underscore. *)
Definition re_word (c : char) : bool := py_isalnum c || bool_decide (c = 95%N).

(** The range [а-яё] of the character class. *)
Definition cyrillic_lower (c : char) : bool :=
  (1072 <=? c)%N && (c <=? 1103)%N || bool_decide (c = 1105%N).

(** A character outside the class [[^\w\s,;а-яё]], which [re.sub] keeps. *)
Definition kept (c : char) : bool :=
  re_word c || py_isspace c || bool_decide (c = 44%N) || bool_decide (c = 59%N)
  || cyrillic_lower c.

(** [re.sub(r'[^\w\s,;а-яё]', ' ', text)] *)
Definition sub_symbols (text : str) : str :=
  map (fun c => if kept c then c else 32%N) text.

(** A character of the class [[,;\s]]. *)
Definition separator (c : char) : bool :=
  bool_decide (c = 44%N) || bool_decide (c = 59%N) || py_isspace c.

(** [re.split(r'[,;\s]+', text)]: the pieces between the maximal runs of
    separators, an empty piece before a leading and after a trailing run. *)
Fixpoint re_split (text : str) : list str :=
  match text with
  | [] => [[]]
  | c :: rest =>
      if separator c then
        match rest with
        | c' :: _ => if separator c' then re_split rest else [] :: re_split rest
        | [] => [] :: re_split rest
        end
      else
        match re_split rest with
        | piece :: pieces => (c :: piece) :: pieces
        | [] => [[c]]
        end
  end.

Fixpoint lstrip (s : str) : str :=
  match s with
  | c :: s' => if py_isspace c then lstrip s' else s
  | [] => []
  end.

(** [str.strip()] *)
Definition strip (s : str) : str := rev (lstrip (rev (lstrip s))).

Definition parse_user_classes (text : str) : list str :=
  let text := sub_symbols (py_lower text) in
  let classes := re_split text in
  filter (fun cls : str => 2 <= length cls) (map strip classes).

(** The tokenizer as the specification words it: as [parse_user_classes],
    with "alphanumeric" where the pattern has [\w]. *)
Definition spec_kept (c : char) : bool :=
  py_isalnum c || py_isspace c || bool_decide (c = 44%N) || bool_decide (c = 59%N)
  || cyrillic_lower c.

Definition tokenize_spec (text : str) : list str :=
  let text := map (fun c => if spec_kept c then c else 32%N) (py_lower text) in
  filter (fun cls : str => 2 <= length cls) (map strip (re_split text)).


(** *** [match_user_classes_to_detected] *)

(** Level 1: the loop over [detected_classes] that breaks at the first class
    whose lower-cased name is the token. *)
Definition exact_russian (user_class : str) (detected_classes : list str)
  : option str :=
  snd <$> list_find (fun detected_class => user_class = py_lower detected_class)
            detected_classes.

(** Level 2: the loop over the dict items that breaks at the first English
    name equal to the token whose Russian name was detected. *)
Definition exact_english (translations : list (str * str))
  (user_class : str) (detected_classes : list str) : option str :=
  (fun found : nat * (str * str) => found.2.2) <$>
  list_find (fun item : str * str =>
               user_class = py_lower item.1 /\ item.2 ∈ detected_classes)
    translations.

(** One comparison of level 3: [best] is [(best_match, best_score)]. *)
Definition consider (user_class name target : str) (best : option str * Q)
  : option str * Q :=
  let score := calculate_similarity user_class (py_lower name) in
  if Qlt_le_dec best.2 score then
    if Qlt_le_dec (3 # 5) score then (Some target, score) else best
  else best.

(** Level 3: the two loops, over the detected classes and over the dict. *)
Definition fuzzy_russian (user_class : str) (detected_classes : list str)
  (best : option str * Q) : option str * Q :=
  foldl (fun best detected_class => consider user_class detected_class detected_class best)
    best detected_classes.

Definition fuzzy_english (translations : list (str * str))
  (user_class : str) (detected_classes : list str)
  (best : option str * Q) : option str * Q :=
  foldl (fun best (item : str * str) =>
           if bool_decide (item.2 ∈ detected_classes)
           then consider user_class item.1 item.2 best
           else best)
    best translations.

Definition fuzzy (translations : list (str * str))
  (user_class : str) (detected_classes : list str) : option str * Q :=
  fuzzy_english translations user_class detected_classes
    (fuzzy_russian user_class detected_classes (None, 0%Q)).

(** The returned tuple.  A suggestion is the pair that the source renders as
    ['token' → 'class']. *)
Record match_result := MatchResult {
  valid_classes : list str;
  invalid_classes : list str;
  suggestions : list (str * str);
}.

(** [if c not in valid_classes: valid_classes.append(c)] *)
Definition add_class (c : str) (valid : list str) : list str :=
  if bool_decide (c ∈ valid) then valid else valid ++ [c].

(** The truth value of [best_match]: neither [None] nor the empty string. *)
Definition truthy (best_match : option str) : bool :=
  match best_match with
  | Some (_ :: _) => true
  | _ => false
  end.

(** The body of the loop over [user_classes]; [translations] is the dict
    [self.detector.class_translations] in iteration order. *)
Definition match_step (translations : list (str * str))
  (detected_classes : list str) (r : match_result)
  (user_class : str) : match_result :=
  match exact_russian user_class detected_classes with
  | Some detected_class =>
      MatchResult (add_class detected_class (valid_classes r))
        (invalid_classes r) (suggestions r)
  | None =>
      match exact_english translations user_class detected_classes with
      | Some rus_name =>
          MatchResult (add_class rus_name (valid_classes r))
            (invalid_classes r) (suggestions r)
      | None =>
          match (fuzzy translations user_class detected_classes).1 with
          | Some best_match =>
              if truthy (Some best_match)
                 && bool_decide (best_match ∉ valid_classes r)
              then MatchResult (valid_classes r ++ [best_match])
                     (invalid_classes r)
                     (suggestions r ++ [(user_class, best_match)])
              else MatchResult (valid_classes r)
                     (invalid_classes r ++ [user_class]) (suggestions r)
          | None =>
              MatchResult (valid_classes r)
                (invalid_classes r ++ [user_class]) (suggestions r)
          end
      end
  end.

Definition match_user_classes_to_detected (translations : list (str * str))
  (user_classes detected_classes : list str) : match_result :=
  foldl (match_step translations detected_classes) (MatchResult [] [] [])
    user_classes.

(** The level that settles a token, and what it resolves to. *)
Inductive resolution :=
  | Exact (detected_class : str)
  | Alternate (rus_name : str)
  | Fuzzy (best_match : str)
  | Unresolved.

Definition resolve (translations : list (str * str))
  (user_class : str) (detected_classes : list str) : resolution :=
  match exact_russian user_class detected_classes with
  | Some detected_class => Exact detected_class
  | None =>
      match exact_english translations user_class detected_classes with
      | Some rus_name => Alternate rus_name
      | None =>
          match (fuzzy translations user_class detected_classes).1 with
          | Some best_match => Fuzzy best_match
          | None => Unresolved
          end
      end
  end.

(** What the loop body does with the outcome of the levels. *)
Definition record (user_class : str) (o : resolution) (r : match_result)
  : match_result :=
  match o with
  | Exact c | Alternate c =>
      MatchResult (add_class c (valid_classes r)) (invalid_classes r) (suggestions r)
  | Fuzzy best_match =>
      if truthy (Some best_match) && bool_decide (best_match ∉ valid_classes r)
      then MatchResult (valid_classes r ++ [best_match]) (invalid_classes r)
             (suggestions r ++ [(user_class, best_match)])
      else MatchResult (valid_classes r) (invalid_classes r ++ [user_class])
             (suggestions r)
  | Unresolved =>
      MatchResult (valid_classes r) (invalid_classes r ++ [user_class])
        (suggestions r)
  end.

(** The names the fuzzy level compares the token with, in the order of the
    two loops, each with the class it stands for. *)
Definition candidates (translations : list (str * str))
  (detected_classes : list str) : list (str * str) :=
  map (fun detected_class => (detected_class, detected_class)) detected_classes
  ++ filter (fun item : str * str => item.2 ∈ detected_classes) translations.

Definition score (user_class : str) (candidate : str * str) : Q :=
  calculate_similarity user_class (py_lower candidate.1).


(** *** Vocabulary of the statements *)

(** [a] occurs in [b] as a contiguous block. *)
Definition substring (a b : str) : Prop := exists pre post, b = pre ++ a ++ post.

(** The Jaccard index of the character sets of two strings. *)
Definition jaccard (a b : str) : Q :=
  (inject_Z (Z.of_nat (size (list_to_set a ∩ list_to_set b : gset N)))
   / inject_Z (Z.of_nat (size (list_to_set a ∪ list_to_set b : gset N))))%Q.

Definition consider_candidate (tok : str) (best : option str * Q)
  (cand : str * str) : option str * Q :=
  consider tok cand.1 cand.2 best.

(** What the running maximum holds after the candidates [l]: nothing, when no
    score is above 0.6; else the first candidate of the highest score. *)
Inductive best_of (tok : str) (l : list (str * str)) : option str * Q -> Prop :=
  | best_none :
      (forall cand, cand ∈ l -> (score tok cand <= 3 # 5)%Q) ->
      best_of tok l (None, 0%Q)
  | best_some i cand :
      l !! i = Some cand ->
      (3 # 5 < score tok cand)%Q ->
      (forall cand', cand' ∈ l -> (score tok cand' <= score tok cand)%Q) ->
      (forall j cand', j < i -> l !! j = Some cand' ->
                       (score tok cand' < score tok cand)%Q) ->
      best_of tok l (Some cand.2, score tok cand).


(** The invariants of the loop over the tokens. *)
Definition valid_ok (detected : list str) (r : match_result) : Prop :=
  NoDup (valid_classes r) /\ forall c, c ∈ valid_classes r -> c ∈ detected.

Definition suggestions_ok (translations : list (str * str))
  (detected toks : list str) (r : match_result) : Prop :=
  (forall tok c, (tok, c) ∈ suggestions r ->
     tok ∈ toks
     /\ exact_russian tok detected = None
     /\ exact_english translations tok detected = None
     /\ (fuzzy translations tok detected).1 = Some c
     /\ c ∈ valid_classes r)
  /\ length (suggestions r) <= length (valid_classes r).

End Resolver.

(** ** Sessions, messages and the handlers

    A handler is modelled from its first statement to its last with nothing
    in between: what another coroutine could do to [user_sessions] while this
    one awaits is outside the model. *)

Inductive session_state :=
  | waiting_photo
  | waiting_class_selection
  | processing_segmentation.

(** A session dict: ['state'] is in every dict the program builds, the other
    keys only after a photo or a selection. *)
Record session := Session {
  state : session_state;
  image_bytes : option bytes;
  detected_classes : option (list str);
  class_counts : option (gmap str Z);
  annotated_image_bytes : option bytes;
  selected_classes : option (list str);
}.

(** The texts of [config], which is not among the sources. *)
Inductive config_message :=
  | START_MESSAGE
  | HELP_MESSAGE
  | PHOTO_RECEIVED
  | ERROR_NO_OBJECTS
  | ERROR_PROCESSING
  | ERROR_NO_PHOTO
  | SEGMENTATION_START.

Inductive response_part :=
  | Selected (valid : list str)
  | Corrections (suggestions : list (str * str))
  | NotFound (invalid : list str)
  | Available (available_classes : list str).

Inductive summary_part :=
  | ResultsHeader
  | ResultLine (class_name : str) (count : Z)
  | FailedHeader
  | FailedLine (class_name : str) (eng_name : option str)
  | Total (total_objects : Z)
  | Invitation.

(** What a handler sends, by the call that sends it; the wording is left out. *)
Inductive message :=
  | Config (m : config_message)
  | DetectorUnavailable
  | AnnotatedPhoto (photo : bytes)
  | DetectionComplete (classes_text : list (str * Z)) (hint : list str) (more : bool)
  | NeedStart
  | SendNewPhoto
  | NotRecognised
  | SelectionReport (response_parts : list response_part)
  | SegmentationPhoto (photo : bytes) (class_name : str)
  | SegmentationUnavailable
  | Summary (summary_parts : list summary_part).

Inductive exn := KeyError | AttributeError | TelegramError | DetectorError.

Inductive outcome (A : Type) :=
  | Returned (a : A)
  | Raised (e : exn).
Arguments Returned {A} a.
Arguments Raised {A} e.

(** [YOLOObjectDetector] as the bot uses it. *)
Record Detector := {
  class_translations : list (str * str);
  detect_objects : bytes -> outcome (list str * gmap str Z * bytes);
  segment_objects : bytes -> list str -> outcome (gmap str bytes);
}.

(** A handler runs on a state [St] (the session dict, or [user_sessions]) and
    on the log of the replies attempted so far, each with whether it was
    delivered; an exception leaves both as they were when it was raised. *)
Record run (St A : Type) := Run {
  result : outcome A;
  final : St;
  sent : list (message * bool);
}.
Arguments Run {St A} result final sent.
Arguments result {St A} r.
Arguments final {St A} r.
Arguments sent {St A} r.

Definition M (St A : Type) : Type := St -> list (message * bool) -> run St A.

Definition ret {St A} (a : A) : M St A := fun s log => Run (Returned a) s log.

Definition raise {St A} (e : exn) : M St A := fun s log => Run (Raised e) s log.

Definition bind {St A B} (f : A -> M St B) (m : M St A) : M St B :=
  fun s log =>
    let r := m s log in
    match result r with
    | Returned a => f a (final r) (sent r)
    | Raised e => Run (Raised e) (final r) (sent r)
    end.

#[global] Instance M_ret {St} : MRet (M St) := @ret St.
#[global] Instance M_bind {St} : MBind (M St) := @bind St.

Definition try_except {St A} (body : M St A) (handler : exn -> M St A) : M St A :=
  fun s log =>
    let r := body s log in
    match result r with
    | Returned _ => r
    | Raised e => handler e (final r) (sent r)
    end.

Definition get {St} : M St St := fun s log => Run (Returned s) s log.

Definition modify {St} (f : St -> St) : M St unit :=
  fun s log => Run (Returned tt) (f s) log.

Definition lift {St A} (o : outcome A) : M St A :=
  match o with
  | Returned a => ret a
  | Raised e => raise e
  end.

(** [d[key]] *)
Definition item {St A} (o : option A) : M St A :=
  match o with
  | Some a => ret a
  | None => raise KeyError
  end.

(** A block that runs on the dict stored under [user_id]: it begins with
    [session = self.user_sessions[user_id]], and what it assigns to [session]
    is seen in [user_sessions], the two being one object. *)
Definition on_session {A} (user_id : Z) (m : M session A) : M (gmap Z session) A :=
  fun sessions log =>
    match sessions !! user_id with
    | None => Run (Raised KeyError) sessions log
    | Some s =>
        let r := m s log in
        Run (result r) (<[user_id := final r]> sessions) (sent r)
    end.

(** A block that assigns to nothing of its state. *)
Definition frame {St A} (m : M St A) : Prop :=
  forall s log, final (m s log) = s.

(** A block that ends with the assignment [g] when it returns and assigns to
    nothing when it raises. *)
Definition ends_with {St} (g : St -> St) (m : M St unit) : Prop :=
  forall s log,
    (result (m s log) = Returned tt /\ final (m s log) = g s)
    \/ ((exists e, result (m s log) = Raised e) /\ final (m s log) = s).

Definition set_state (st : session_state) (s : session) : session :=
  Session st (image_bytes s) (detected_classes s) (class_counts s)
    (annotated_image_bytes s) (selected_classes s).

Definition set_selected_classes (valid : list str) (s : session) : session :=
  Session (state s) (image_bytes s) (detected_classes s) (class_counts s)
    (annotated_image_bytes s) (Some valid).

(** The English name shown for a Russian class name: the first key of the dict
    with that value, unless there is none or it is the empty string. *)
Definition english_name (translations : list (str * str)) (rus_class : str)
  : option str :=
  match list_find (fun item : str * str => item.2 = rus_class) translations with
  | Some (_, ((_ :: _) as eng, _)) => Some eng
  | _ => None
  end.

(** What a run of the bot depends on besides its sessions: [self.detector],
    which is [None] when the models failed to load, and whether the n-th reply
    the bot attempts goes through. *)
Class Bot := {
  detector : option Detector;
  delivered : nat -> bool;
}.

Section Handlers.

Context {runtime : Unicode} {bot : Bot}.

Definition reply {St} (msg : message) : M St unit :=
  fun s log =>
    if delivered (length log)
    then Run (Returned tt) s (log ++ [(msg, true)])
    else Run (Raised TelegramError) s (log ++ [(msg, false)]).

(** [self.detector.class_translations] *)
Definition detector_translations {St} : M St (list (str * str)) :=
  match detector with
  | Some d => ret (class_translations d)
  | None => raise AttributeError
  end.

Definition start_command (user_id : Z) : M (gmap Z session) unit :=
  modify (insert user_id (Session waiting_photo None None None None None));;
  reply (Config START_MESSAGE).

Definition help_command : M (gmap Z session) unit :=
  reply (Config HELP_MESSAGE).

(** The names for the hint and for the list of available classes. The dict is
    read once per class, so not at all when there is no class. *)
Definition english_classes {St} (classes : list str) : M St (list str) :=
  match classes with
  | [] => ret []
  | _ =>
      translations ← detector_translations;
      ret (map (fun rus_class => default rus_class (english_name translations rus_class))
             classes)
  end.

(** [photo] is what fetching and downloading the largest photo gives. *)
Definition handle_photo (user_id : Z) (photo : outcome bytes)
  : M (gmap Z session) unit :=
  match detector with
  | None => reply DetectorUnavailable
  | Some d =>
      try_except
        (reply (Config PHOTO_RECEIVED);;
         photo_bytes ← lift photo;
         detection ← lift (detect_objects d photo_bytes);
         let '(detected, counts, annotated) := detection in
         match detected with
         | [] => reply (Config ERROR_NO_OBJECTS)
         | _ =>
             modify (insert user_id
                       (Session waiting_class_selection (Some photo_bytes)
                          (Some detected) (Some counts) (Some annotated) None));;
             reply (AnnotatedPhoto annotated);;
             let classes_text :=
               map (fun cls => (cls, default 0%Z (counts !! cls))) detected in
             english ← english_classes detected;
             reply (DetectionComplete classes_text (take 5 english)
                      (bool_decide (5 < length english)))
         end)
        (fun _ => reply (Config ERROR_PROCESSING))
  end.

(** The loop of [perform_segmentation] over the selected classes. *)
Fixpoint send_masks (segmentation_results : gmap str bytes)
  (selected : list str) : M session (list str * list str) :=
  match selected with
  | [] => ret ([], [])
  | class_name :: rest =>
      match segmentation_results !! class_name with
      | Some photo =>
          reply (SegmentationPhoto photo class_name);;
          lists ← send_masks segmentation_results rest;
          ret (class_name :: lists.1, lists.2)
      | None =>
          lists ← send_masks segmentation_results rest;
          ret (lists.1, class_name :: lists.2)
      end
  end.

Definition count_of (counts : gmap str Z) (cls : str) : Z :=
  default 0%Z (counts !! cls).

Definition send_final_summary (successful_classes failed_classes : list str)
  (counts : gmap str Z) : M session unit :=
  let results :=
    match successful_classes with
    | [] => []
    | _ => ResultsHeader
           :: map (fun cls => ResultLine cls (count_of counts cls)) successful_classes
    end in
  failures ←
    match failed_classes with
    | [] => ret []
    | _ =>
        translations ← detector_translations;
        ret (FailedHeader
             :: map (fun cls => FailedLine cls (english_name translations cls))
                  failed_classes)
    end;
  let total_objects :=
    foldr Z.add 0%Z (map (count_of counts) successful_classes) in
  let total := if bool_decide (0 < total_objects)%Z then [Total total_objects] else [] in
  reply (Summary (results ++ failures ++ total ++ [Invitation])).

(** The body of the [try] of [perform_segmentation]. *)
Definition segmentation_try : M session unit :=
  match detector with
  | None => reply SegmentationUnavailable
  | Some d =>
      s ← get;
      selected ← item (selected_classes s);
      image ← item (image_bytes s);
      counts ← item (class_counts s);
      segmentation_results ← lift (segment_objects d image selected);
      lists ← send_masks segmentation_results selected;
      send_final_summary lists.1 lists.2 counts;;
      modify (set_state waiting_photo)
  end.

Definition perform_segmentation : M session unit :=
  try_except segmentation_try (fun _ => reply (Config ERROR_PROCESSING)).

(** [self.match_user_classes_to_detected] in the bot: the dict is read when the
    first token gets past level 1, which fails without a detector. *)
Definition match_in_bot (user_classes detected : list str) : M session match_result :=
  match detector with
  | Some d =>
      ret (match_user_classes_to_detected (class_translations d)
             user_classes detected)
  | None =>
      if forallb (fun user_class =>
                    bool_decide (is_Some (exact_russian user_class detected)))
           user_classes
      then ret (match_user_classes_to_detected [] user_classes detected)
      else raise AttributeError
  end.

Definition class_selection (text : str) : M session unit :=
  s ← get;
  detected ← item (detected_classes s);
  _ ← item (class_counts s);
  let user_classes := parse_user_classes text in
  match user_classes with
  | [] => reply NotRecognised
  | _ =>
      r ← match_in_bot user_classes detected;
      let chosen :=
        match valid_classes r with
        | [] => []
        | _ => Selected (valid_classes r)
               :: match suggestions r with
                  | [] => []
                  | _ => [Corrections (suggestions r)]
                  end
        end in
      missing ←
        match invalid_classes r with
        | [] => ret []
        | _ =>
            available ← english_classes detected;
            ret [NotFound (invalid_classes r); Available available]
        end;
      let response_parts := chosen ++ missing in
      match valid_classes r with
      | [] => reply (SelectionReport response_parts)
      | _ =>
          reply (SelectionReport response_parts);;
          modify (set_selected_classes (valid_classes r));;
          modify (set_state processing_segmentation);;
          reply (Config SEGMENTATION_START);;
          perform_segmentation
      end
  end.

Definition handle_class_selection (user_id : Z) (text : str)
  : M (gmap Z session) unit :=
  on_session user_id (class_selection text).

(** [text] is the message text; the handler strips and lower-cases it. *)
Definition handle_text (user_id : Z) (text : str) : M (gmap Z session) unit :=
  let text := py_lower (strip text) in
  sessions ← get;
  match sessions !! user_id with
  | None => reply NeedStart
  | Some s =>
      match state s with
      | waiting_photo => reply (Config ERROR_NO_PHOTO)
      | waiting_class_selection => handle_class_selection user_id text
      | processing_segmentation => reply SendNewPhoto
      end
  end.

End Handlers.

(** ** Instances the examples are run with *)

Definition basic_tables : Unicode := {|
  py_lower := Basic.lower;
  py_isalnum := Basic.isalnum;
  py_isspace := Basic.isspace;
|}.

(** A detector that finds a person and a dog in every non-empty photo and
    nothing in an empty one, and whose segmentation raises on an empty image
    and finds no mask otherwise. *)
Definition demo_detector : Detector := {|
  class_translations := YOLOObjectDetector.class_translations;
  detect_objects photo :=
    match photo with
    | [] => Returned ([], ∅, [])
    | _ => Returned ([py "человек"; py "собака"],
                     {[ py "человек" := 2%Z; py "собака" := 1%Z ]}, photo)
    end;
  segment_objects image selected :=
    match image with
    | [] => Raised DetectorError
    | _ => Returned ∅
    end;
|}.

Definition demo_bot : Bot := {|
  detector := Some demo_detector;
  delivered := fun _ => true;
|}.


Definition demo_session (image : bytes) : session :=
  Session processing_segmentation (Some image)
    (Some [py "человек"; py "собака"])
    (Some {[ py "человек" := 2%Z; py "собака" := 1%Z ]})
    (Some image) (Some [py "собака"]).

(** ** Further vocabulary *)

(** [sep.join(pieces)] for a separator of one character. *)
Fixpoint join (sep : char) (pieces : list str) : str :=
  match pieces with
  | [] => []
  | [piece] => piece
  | piece :: rest => piece ++ sep :: join sep rest
  end.

(** ** [detection.py]: what the detector makes of the output of its models

    The models, the image library and the float32 arithmetic on the boxes are
    not part of the program; the loops that translate, count and group what
    the models return are. *)

(** A box of the detection model as [detect_objects] reads it: the class id,
    and whether the area test [area < self.min_object_area] skips it. *)
Record box := Box {
  box_class : Z;
  box_small : bool;
}.

(** A box of the segmentation model as [segment_objects] reads it: the class
    id and the mask. *)
Record segment := Segment {
  segment_class : Z;
  segment_mask : bytes;
}.

Record Models := {
  (** [self.model.names] and [self.seg_model.names] *)
  model_names : gmap Z str;
  seg_model_names : gmap Z str;
  (** [preprocess_image] and [self.model(...)]: the boxes of the first result,
      [None] when there is no result or it has no boxes. *)
  run_model : bytes -> outcome (option (list box));
  (** [draw_boxes] and the JPEG encoding of what it draws. *)
  draw_boxes : bytes -> outcome bytes;
  (** [preprocess_image] and [self.seg_model(...)], [None] when there is no
      result or it has no masks. *)
  run_seg_model : bytes -> outcome (option (list segment));
  (** [create_segmentation_image], which returns [None] when it fails, and
      the PNG encoding of the image it returns. *)
  create_segmentation_image : bytes -> str -> list bytes -> outcome (option bytes);
}.

(** [self.class_translations.get(class_name, class_name)] *)
Definition translate (translations : list (str * str)) (class_name : str) : str :=
  match list_find (fun item : str * str => item.1 = class_name) translations with
  | Some (_, (_, russian_name)) => russian_name
  | None => class_name
  end.

(** The body of the loop of [detect_objects], on
    [(detected_classes, class_counts)]. *)
Definition count_box (names : gmap Z str) (translations : list (str * str))
  (acc : list str * gmap str Z) (b : box) : outcome (list str * gmap str Z) :=
  if box_small b then Returned acc
  else
    match names !! box_class b with
    | None => Raised KeyError
    | Some class_name =>
        let russian_name := translate translations class_name in
        Returned
          (add_class russian_name acc.1,
           match acc.2 !! russian_name with
           | Some n => <[russian_name := (n + 1)%Z]> acc.2
           | None => <[russian_name := 1%Z]> acc.2
           end)
    end.

Fixpoint count_boxes (names : gmap Z str) (translations : list (str * str))
  (boxes : list box) (acc : list str * gmap str Z)
  : outcome (list str * gmap str Z) :=
  match boxes with
  | [] => Returned acc
  | b :: rest =>
      match count_box names translations acc b with
      | Returned acc' => count_boxes names translations rest acc'
      | Raised e => Raised e
      end
  end.

(** [detect_objects]; what its [try] catches it raises again. *)
Definition yolo_detect_objects (m : Models) (translations : list (str * str))
  (image_bytes : bytes) : outcome (list str * gmap str Z * bytes) :=
  match run_model m image_bytes with
  | Raised e => Raised e
  | Returned boxes =>
      match count_boxes (model_names m) translations (default [] boxes) ([], ∅) with
      | Raised e => Raised e
      | Returned (detected, counts) =>
          match draw_boxes m image_bytes with
          | Raised e => Raised e
          | Returned annotated => Returned (detected, counts, annotated)
          end
      end
  end.

(** The body of the first loop of [segment_objects], on [class_masks]. *)
Definition group_mask (names : gmap Z str) (translations : list (str * str))
  (selected : list str) (class_masks : gmap str (list bytes)) (s : segment)
  : outcome (gmap str (list bytes)) :=
  match names !! segment_class s with
  | None => Raised KeyError
  | Some class_name =>
      let russian_name := translate translations class_name in
      if bool_decide (russian_name ∈ selected)
      then Returned (<[russian_name :=
                         default [] (class_masks !! russian_name) ++ [segment_mask s]]>
                       class_masks)
      else Returned class_masks
  end.

Fixpoint group_masks (names : gmap Z str) (translations : list (str * str))
  (selected : list str) (segments : list segment)
  (class_masks : gmap str (list bytes)) : outcome (gmap str (list bytes)) :=
  match segments with
  | [] => Returned class_masks
  | s :: rest =>
      match group_mask names translations selected class_masks s with
      | Returned class_masks' => group_masks names translations selected rest class_masks'
      | Raised e => Raised e
      end
  end.

Definition is_returned {A} (o : outcome A) : bool :=
  match o with
  | Returned _ => true
  | Raised _ => false
  end.

(** The second loop of [segment_objects]: an image per class that has masks;
    a class whose image is [None] is left out, and an exception anywhere
    discards everything, in whatever order the classes are taken. *)
Definition render_masks (m : Models) (image_bytes : bytes)
  (class_masks : gmap str (list bytes)) : outcome (gmap str bytes) :=
  let rendered :=
    map_imap (fun class_name masks_data =>
                Some (create_segmentation_image m image_bytes class_name masks_data))
      class_masks in
  if decide (map_Forall (fun _ o => is_returned o = true) rendered)
  then Returned (omap (fun o : outcome (option bytes) =>
                         match o with
                         | Returned image => image
                         | Raised _ => None
                         end) rendered)
  else Raised DetectorError.

(** [segment_objects]; its [try] turns every exception into the empty dict. *)
Definition yolo_segment_objects (m : Models) (translations : list (str * str))
  (image_bytes : bytes) (selected : list str) : gmap str bytes :=
  match run_seg_model m image_bytes with
  | Returned (Some segments) =>
      match group_masks (seg_model_names m) translations selected segments ∅ with
      | Returned class_masks =>
          match render_masks m image_bytes class_masks with
          | Returned segmentation_results => segmentation_results
          | Raised _ => ∅
          end
      | Raised _ => ∅
      end
  | _ => ∅
  end.

(** The detector object that [ObjectDetectionBot.__init__] builds. *)
Definition yolo_detector (m : Models) (translations : list (str * str)) : Detector := {|
  class_translations := translations;
  detect_objects := yolo_detect_objects m translations;
  segment_objects image_bytes selected :=
    Returned (yolo_segment_objects m translations image_bytes selected);
|}.

(** The boxes that count for the class [c]: those the area test keeps and
    whose translated name is [c]. *)
Definition counts_for (names : gmap Z str) (translations : list (str * str))
  (c : str) (b : box) : Prop :=
  box_small b = false
  /\ translate translations <$> names !! box_class b = Some c.

#[global] Instance counts_for_dec names translations c b :
  Decision (counts_for names translations c b).
Proof. unfold counts_for. apply _. Defined.

(** The masks of the class [c], in the order of the boxes. *)
Definition masks_of (names : gmap Z str) (translations : list (str * str))
  (c : str) (segments : list segment) : list bytes :=
  segment_mask <$>
  filter (fun s => translate translations <$> names !! segment_class s = Some c)
    segments.

(** The invariant of the counting loop: the classes are distinct, they are
    the keys of the counts, and every count is positive. *)
Definition tally_ok (acc : list str * gmap str Z) : Prop :=
  NoDup acc.1
  /\ (forall c, c ∈ acc.1 <-> is_Some (acc.2 !! c))
  /\ (forall c n, acc.2 !! c = Some n -> (1 <= n)%Z).

(** ** The application ([main])

    [main] registers the four handlers and the error handler; an update is
    one of four events, and what a handler raises goes to [handle_error]. *)

Inductive event :=
  | Start (user_id : Z)
  | Help (user_id : Z)
  | Photo (user_id : Z) (photo : outcome bytes)
  | Text (user_id : Z) (text : str).

Definition user_of (e : event) : Z :=
  match e with
  | Start user_id | Help user_id | Photo user_id _ | Text user_id _ => user_id
  end.

Section Application.

Context {runtime : Unicode} {bot : Bot}.

Definition handle (e : event) : M (gmap Z session) unit :=
  match e with
  | Start user_id => start_command user_id
  | Help _ => help_command
  | Photo user_id photo => handle_photo user_id photo
  | Text user_id text => handle_text user_id text
  end.

(** [handle_error]; every update of the four handlers has a message. *)
Definition handle_error : M (gmap Z session) unit :=
  reply (Config ERROR_PROCESSING).

Definition dispatch (e : event) : M (gmap Z session) unit :=
  try_except (handle e) (fun _ => handle_error).

(** The sessions and the replies after a sequence of updates, each handled
    to its end before the next. *)
Definition run_events (events : list event) (sessions : gmap Z session)
  (log : list (message * bool)) : gmap Z session * list (message * bool) :=
  foldl (fun st e => let r := dispatch e st.1 st.2 in (final r, sent r))
    (sessions, log) events.

(** A session that has what a photo leaves in it. *)
Definition with_photo (s : session) : Prop :=
  exists image names counts annotated,
    image_bytes s = Some image
    /\ detected_classes s = Some names
    /\ names <> []
    /\ class_counts s = Some counts
    /\ annotated_image_bytes s = Some annotated.

(** A session that has the selection that a class selection leaves in it. *)
Definition with_selection (s : session) : Prop :=
  exists selected names,
    selected_classes s = Some selected
    /\ detected_classes s = Some names
    /\ selected <> []
    /\ NoDup selected
    /\ forall c, c ∈ selected -> c ∈ names.

(** What the state of a session says about its other keys. *)
Definition session_ok (s : session) : Prop :=
  match state s with
  | waiting_photo => True
  | waiting_class_selection => is_Some detector /\ with_photo s
  | processing_segmentation => is_Some detector /\ with_photo s /\ with_selection s
  end.

Definition sessions_ok (sessions : gmap Z session) : Prop :=
  forall user_id s, sessions !! user_id = Some s -> session_ok s.

End Application.

(** The mask photos that the loop of [perform_segmentation] sends when every
    reply is delivered: one per selected class with a result, in order. *)
Definition mask_photos (segmentation_results : gmap str bytes) (selected : list str)
  : list (message * bool) :=
  omap (fun class_name =>
          (fun photo => (SegmentationPhoto photo class_name, true))
          <$> segmentation_results !! class_name)
    selected.

(** The names shown for the classes, with a detector. *)
Definition shown (translations : list (str * str)) (classes : list str) : list str :=
  map (fun rus_class => default rus_class (english_name translations rus_class)) classes.


Section Results.

Context {runtime : Unicode} {bot : Bot}.

(** [handle_photo] after a detection with at least one class: the session is
    stored, then the two results are sent. *)
Definition photo_results (detected : list str) (counts : gmap str Z)
  (annotated : bytes) : M (gmap Z session) unit :=
  reply (AnnotatedPhoto annotated);;
  english ← english_classes detected;
  reply (DetectionComplete
           (map (fun cls => (cls, default 0%Z (counts !! cls))) detected)
           (take 5 english) (bool_decide (5 < length english))).

(** [handle_class_selection] after the report, when a class was resolved. *)
Definition segment_selected (valid : list str) : M session unit :=
  modify (set_selected_classes valid);;
  modify (set_state processing_segmentation);;
  reply (Config SEGMENTATION_START);;
  perform_segmentation.

End Results.

(** The two lists that the loop of [perform_segmentation] builds. *)
Definition successful_of (segmentation_results : gmap str bytes)
  (selected : list str) : list str :=
  filter (fun class_name => is_Some (segmentation_results !! class_name)) selected.

Definition failed_of (segmentation_results : gmap str bytes)
  (selected : list str) : list str :=
  filter (fun class_name => ~ is_Some (segmentation_results !! class_name)) selected.

(** The parts of the summary that [send_final_summary] sends, with the dict
    of the detector. *)
Definition summary_of (translations : list (str * str))
  (successful_classes failed_classes : list str) (counts : gmap str Z)
  : list summary_part :=
  let total_objects :=
    foldr Z.add 0%Z (map (count_of counts) successful_classes) in
  match successful_classes with
  | [] => []
  | _ => ResultsHeader
         :: map (fun cls => ResultLine cls (count_of counts cls)) successful_classes
  end
  ++ match failed_classes with
     | [] => []
     | _ => FailedHeader
            :: map (fun cls => FailedLine cls (english_name translations cls))
                 failed_classes
     end
  ++ (if bool_decide (0 < total_objects)%Z then [Total total_objects] else [])
  ++ [Invitation].

(** The parts of the report that [handle_class_selection] sends for the
    result of the resolver, with the dict of the detector. *)
Definition selection_report (translations : list (str * str))
  (detected : list str) (r : match_result) : list response_part :=
  match valid_classes r with
  | [] => []
  | _ => Selected (valid_classes r)
         :: match suggestions r with
            | [] => []
            | _ => [Corrections (suggestions r)]
            end
  end
  ++ match invalid_classes r with
     | [] => []
     | _ => [NotFound (invalid_classes r); Available (shown translations detected)]
     end.

Section Bookkeeping.

Context {runtime : Unicode}.

(** What the lists of the resolver are to the token list: the not-found list
    and the tokens of the corrections are taken from it in its order, each
    token is counted at most once, and a token that an exact level matches is
    not in the not-found list. *)
Definition bookkeeping (translations : list (str * str)) (detected toks : list str)
  (r : match_result) : Prop :=
  invalid_classes r `sublist_of` toks
  /\ (suggestions r).*1 `sublist_of` toks
  /\ length (valid_classes r) + length (invalid_classes r) <= length toks
  /\ forall tok, tok ∈ invalid_classes r ->
       exact_russian tok detected = None
       /\ exact_english translations tok detected = None.

End Bookkeeping.

(** ** Instances the further examples are run with *)

(** Models that see two people and two dogs, one of the dogs too small to
    count, and that segment one person and one dog; segmentation raises on
    an empty image, and the image of a class is its masks put together. *)
Definition demo_models : Models := {|
  model_names := {[ 0%Z := py "person"; 16%Z := py "dog" ]};
  seg_model_names := {[ 0%Z := py "person"; 16%Z := py "dog" ]};
  run_model image :=
    Returned (Some [Box 0 false; Box 16 false; Box 0 false; Box 16 true]);
  draw_boxes image := Returned image;
  run_seg_model image :=
    match image with
    | [] => Raised DetectorError
    | _ => Returned (Some [Segment 0 [Byte.x01]; Segment 16 [Byte.x02]])
    end;
  create_segmentation_image image class_name masks_data :=
    Returned (Some (concat masks_data));
|}.

(** The bot with the detector of [detection.py] on these models. *)
Definition yolo_bot : Bot := {|
  detector := Some (yolo_detector demo_models YOLOObjectDetector.class_translations);
  delivered := fun _ => true;
|}.

(** The session that a photo with a person and a dog leaves. *)
Definition waiting_session : session :=
  Session waiting_class_selection (Some [Byte.x01])
    (Some [py "человек"; py "собака"])
    (Some {[ py "человек" := 2%Z; py "собака" := 1%Z ]})
    (Some [Byte.x01]) None.

(** * Facts *)

(** ** The similarity scorer *)

Section Similarity.

Implicit Types a b : str.

Lemma startswith_spec a b : startswith a b = true <-> exists k, b = a ++ k.
Proof.
  revert b. induction a as [|x a IH]; intros [|y b]; simpl.
  - split; [exists []; done | done].
  - split; [eexists; done | done].
  - split; [done | intros [k Hk]; done].
  - rewrite andb_true_iff, bool_decide_eq_true, IH. split.
    + intros [-> [k ->]]. by exists k.
    + intros [k Hk]. injection Hk as -> ->. eauto.
Qed.

Lemma str_in_spec a b : str_in a b = true <-> substring a b.
Proof.
  unfold substring. induction b as [|y b IH]; simpl.
  - rewrite orb_false_r, startswith_spec. split.
    + intros [k Hk]. by exists [], k.
    + intros [pre [post H]]. symmetry in H.
      apply app_eq_nil in H as [-> H]. apply app_eq_nil in H as [-> ->].
      by exists [].
  - rewrite orb_true_iff, startswith_spec, IH. split.
    + intros [[k Hk] | [pre [post H]]].
      * by exists [], k.
      * exists (y :: pre), post. by rewrite H.
    + intros [[|z pre] [post H]].
      * left. by exists post.
      * right. injection H as -> H. by exists pre, post.
Qed.

Lemma str_in_empty b : str_in [] b = true.
Proof. apply str_in_spec. by exists [], b. Qed.

Lemma not_str_in a b : str_in a b = false <-> ~ substring a b.
Proof. rewrite <- str_in_spec. by destruct (str_in a b). Qed.

Lemma ratio_bounds (n m : nat) :
  n <= m -> m <> 0 ->
  (0 <= inject_Z (Z.of_nat n) / inject_Z (Z.of_nat m) <= 1)%Q.
Proof.
  intros Hle Hm. destruct m as [|m]; [done|].
  unfold Qdiv, Qinv, Qmult, Qle, inject_Z; simpl. lia.
Qed.

Lemma ratio_one (n m : nat) :
  m <> 0 ->
  (inject_Z (Z.of_nat n) / inject_Z (Z.of_nat m) == 1)%Q <-> n = m.
Proof.
  intros Hm. destruct m as [|m]; [done|].
  unfold Qdiv, Qinv, Qmult, Qeq, inject_Z; simpl. lia.
Qed.

Lemma chars_union_nonempty a b : a <> [] -> (list_to_set a ∪ list_to_set b : gset N) <> ∅.
Proof. destruct a as [|x a]; [done|]. intros _. set_solver. Qed.

(** In the third branch the union is never empty: the empty string occurs in
    every string. *)
Lemma jaccard_branch a b :
  str_in a b || str_in b a = false ->
  (list_to_set a ∪ list_to_set b : gset N) <> ∅.
Proof.
  intros H. apply orb_false_elim in H as [H _].
  apply chars_union_nonempty. intros ->. by rewrite str_in_empty in H.
Qed.

Lemma similarity_equal a : calculate_similarity a a = 1%Q.
Proof. unfold calculate_similarity. by rewrite decide_True. Qed.

Lemma similarity_substring a b :
  a <> b -> str_in a b || str_in b a = true ->
  calculate_similarity a b = (4 # 5)%Q.
Proof.
  intros Hne H. unfold calculate_similarity.
  rewrite decide_False by done. by rewrite H.
Qed.

Lemma similarity_jaccard a b :
  a <> b -> str_in a b || str_in b a = false ->
  calculate_similarity a b = jaccard a b.
Proof.
  intros Hne H. unfold calculate_similarity, jaccard.
  rewrite decide_False by done. rewrite H.
  by rewrite decide_False by by apply jaccard_branch.
Qed.

Lemma jaccard_bounds a b :
  (list_to_set a ∪ list_to_set b : gset N) <> ∅ -> (0 <= jaccard a b <= 1)%Q.
Proof.
  intros H. apply ratio_bounds.
  - apply subseteq_size. set_solver.
  - intros H0. apply H. apply leibniz_equiv. by apply size_empty_iff.
Qed.

Lemma jaccard_one a b :
  (list_to_set a ∪ list_to_set b : gset N) <> ∅ ->
  (jaccard a b == 1)%Q <-> (list_to_set a : gset N) = list_to_set b.
Proof.
  intros H. unfold jaccard. rewrite ratio_one.
  - split.
    + intros Hsz.
      assert (list_to_set a ∩ list_to_set b = (list_to_set a ∪ list_to_set b : gset N)) as E.
      { apply set_subseteq_size_eq; [set_solver | lia]. }
      apply leibniz_equiv. set_solver.
    + intros ->. f_equal. set_solver.
  - intros H0. apply H. apply leibniz_equiv. by apply size_empty_iff.
Qed.

Lemma common_chars_sym a b :
  (list_to_set a ∩ list_to_set b : gset N) = list_to_set b ∩ list_to_set a.
Proof. set_solver. Qed.

Lemma total_chars_sym a b :
  (list_to_set a ∪ list_to_set b : gset N) = list_to_set b ∪ list_to_set a.
Proof. set_solver. Qed.

(** C9. [calculate_similarity] is symmetric. *)
Theorem calculate_similarity_sym a b :
  calculate_similarity a b = calculate_similarity b a.
Proof.
  unfold calculate_similarity.
  destruct (decide (a = b)) as [->|Hne].
  - by rewrite decide_True.
  - rewrite (decide_False (P := b = a)) by congruence.
    rewrite (orb_comm (str_in b a)).
    by rewrite (common_chars_sym b a), (total_chars_sym b a).
Qed.

(** C4, as the code has it. Two empty strings are equal, so the first branch
    answers [1.0]; the guard for an empty union is never reached. *)
Theorem similarity_empty_empty : calculate_similarity [] [] = 1%Q.
Proof. apply similarity_equal. Qed.

(** C8, as the code has it. Equal strings score [1.0]; unequal strings of
    which one occurs in the other score [0.8]; all other pairs score the
    Jaccard index of their character sets, which lies between 0 and 1.  The
    score is [1.0] exactly for equal strings and for strings with the same
    character set of which neither occurs in the other. *)
Theorem calculate_similarity_cases a b :
  (a = b -> calculate_similarity a b = 1%Q)
  /\ (a <> b -> substring a b \/ substring b a ->
      calculate_similarity a b = (4 # 5)%Q)
  /\ (a <> b -> ~ substring a b -> ~ substring b a ->
      calculate_similarity a b = jaccard a b
      /\ (0 <= calculate_similarity a b <= 1)%Q)
  /\ ((calculate_similarity a b == 1)%Q <->
      a = b \/ (~ substring a b /\ ~ substring b a
                /\ (list_to_set a : gset N) = list_to_set b)).
Proof.
  split; [intros ->; apply similarity_equal|].
  split.
  { intros Hne H. apply similarity_substring; [done|].
    apply orb_true_iff. by rewrite !str_in_spec. }
  split.
  { intros Hne Hab Hba.
    assert (str_in a b || str_in b a = false) as H.
    { apply orb_false_intro; by apply not_str_in. }
    rewrite similarity_jaccard by done.
    split; [done|]. apply jaccard_bounds. by apply jaccard_branch. }
  destruct (decide (a = b)) as [->|Hne].
  { rewrite similarity_equal. split; [by left | done]. }
  destruct (str_in a b || str_in b a) eqn:H.
  - rewrite similarity_substring by done. split; [done|].
    intros [? | (Hab & Hba & _)]; [done|].
    apply orb_true_iff in H as [H | H]; apply str_in_spec in H; done.
  - rewrite similarity_jaccard by done.
    rewrite jaccard_one by by apply jaccard_branch.
    apply orb_false_elim in H as [Hab Hba]. apply not_str_in in Hab, Hba.
    split; [by right | intros [? | (_ & _ & ?)]; done].
Qed.

End Similarity.

(** ** The tokenizer *)

Section Tokenizer.

Context {runtime : Unicode}.

Lemma re_split_nonempty text : re_split text <> [].
Proof.
  induction text as [|c rest IH]; simpl; [done|].
  destruct (separator c).
  - destruct rest as [|c' rest']; [done|]. by destruct (separator c').
  - by destruct (re_split rest).
Qed.

(** No piece of the split holds a separator. *)
Lemma re_split_pieces text :
  Forall (Forall (fun c => separator c = false)) (re_split text).
Proof.
  induction text as [|c rest IH]; simpl.
  - by repeat constructor.
  - destruct (separator c) eqn:Hc.
    + destruct rest as [|c' rest']; [by repeat constructor|].
      destruct (separator c'); [done | by constructor].
    + destruct (re_split rest) as [|piece pieces]; [by repeat constructor|].
      inversion IH; subst. by repeat constructor.
Qed.

(** A text of separators alone splits into empty pieces. *)
Lemma re_split_separators text :
  Forall (fun c => separator c = true) text -> Forall (.= []) (re_split text).
Proof.
  induction 1 as [|c rest Hc Hrest IH]; simpl.
  - by repeat constructor.
  - rewrite Hc. destruct rest as [|c' rest']; [by repeat constructor|].
    destruct (separator c'); [done | by constructor].
Qed.

Lemma lstrip_id s : Forall (fun c => py_isspace c = false) s -> lstrip s = s.
Proof. destruct 1 as [|c s Hc _]; simpl; [done | by rewrite Hc]. Qed.

Lemma strip_id s : Forall (fun c => separator c = false) s -> strip s = s.
Proof.
  intros H.
  assert (Forall (fun c => py_isspace c = false) s) as Hs.
  { eapply Forall_impl; [exact H|]. intros c Hc. unfold separator in Hc.
    by apply orb_false_elim in Hc as [_ ?]. }
  unfold strip. rewrite (lstrip_id s) by done.
  rewrite lstrip_id; [apply rev_involutive|].
  by apply List.Forall_rev.
Qed.

(** [strip] finds nothing to remove from the pieces: the tokens are the
    pieces of at least two characters, in the order of the split. *)
Lemma parse_user_classes_pieces text :
  parse_user_classes text =
  filter (fun cls : str => 2 <= length cls) (re_split (sub_symbols (py_lower text))).
Proof.
  unfold parse_user_classes. f_equal.
  induction (re_split_pieces (sub_symbols (py_lower text))) as [|p ps Hp _ IH];
    simpl; [done|].
  by rewrite strip_id, IH.
Qed.

Lemma parse_user_classes_long text :
  Forall (fun cls : str => 2 <= length cls) (parse_user_classes text).
Proof. unfold parse_user_classes. apply Forall_forall. intros x Hx. by apply list_elem_of_filter in Hx as [? _]. Qed.

Lemma kept_spec_kept c : c <> 95%N -> kept c = spec_kept c.
Proof.
  intros Hc. unfold kept, spec_kept, re_word.
  by rewrite (bool_decide_eq_false_2 (c = 95%N)), orb_false_r.
Qed.

(** Off the underscore the pattern keeps what the specification keeps. *)
Lemma parse_user_classes_tokenize_spec text :
  Forall (fun c => c <> 95%N) (py_lower text) ->
  parse_user_classes text = tokenize_spec text.
Proof.
  intros H. unfold parse_user_classes, tokenize_spec, sub_symbols.
  do 3 f_equal. induction H as [|c l Hc _ IH]; simpl; [done|].
  by rewrite kept_spec_kept, IH.
Qed.

(** A text whose lower-cased characters are all removed symbols or
    separators has no token; the empty text is one. *)
Lemma parse_user_classes_symbols text :
  py_isspace 32%N = true ->
  Forall (fun c => kept c = false \/ separator c = true) (py_lower text) ->
  parse_user_classes text = [].
Proof.
  intros Hsp H. rewrite parse_user_classes_pieces.
  assert (Forall (fun c => separator c = true) (sub_symbols (py_lower text))) as Hsep.
  { unfold sub_symbols. apply Forall_map.
    eapply Forall_impl; [exact H|]. intros c [Hc | Hc]; simpl.
    - rewrite Hc. unfold separator. by rewrite Hsp, orb_true_r.
    - by destruct (kept c); [|unfold separator; rewrite Hsp, orb_true_r]. }
  induction (re_split_separators _ Hsep) as [|p ps -> _ IH]; [done|].
  by rewrite filter_cons_False by (simpl; lia).
Qed.

End Tokenizer.

(** ** The class resolver *)

Section Matcher.

Context {runtime : Unicode}.

Variable translations : list (str * str).
Variable detected : list str.

Implicit Types (tok c : str) (r : match_result) (best : option str * Q).

(** *** Levels 1 and 2: the first hit *)

Lemma exact_russian_Some tok d :
  exact_russian tok detected = Some d <->
  exists i, detected !! i = Some d /\ tok = py_lower d
            /\ forall j d', j < i -> detected !! j = Some d' -> tok <> py_lower d'.
Proof.
  unfold exact_russian. rewrite fmap_Some. split.
  - intros [[i d'] [Hfind ->]]. apply list_find_Some in Hfind as (Hi & Hd & Hfirst).
    exists i. eauto.
  - intros (i & Hi & Hd & Hfirst). exists (i, d). split; [|done].
    apply list_find_Some. eauto.
Qed.

Lemma exact_russian_None tok :
  exact_russian tok detected = None <->
  forall d, d ∈ detected -> tok <> py_lower d.
Proof.
  unfold exact_russian. rewrite fmap_None, list_find_None, Forall_forall. done.
Qed.

Lemma exact_english_Some tok rus :
  exact_english translations tok detected = Some rus <->
  exists i eng, translations !! i = Some (eng, rus)
    /\ tok = py_lower eng /\ rus ∈ detected
    /\ forall j eng' rus', j < i -> translations !! j = Some (eng', rus') ->
         ~ (tok = py_lower eng' /\ rus' ∈ detected).
Proof.
  unfold exact_english. rewrite fmap_Some. split.
  - intros [[i [eng rus']] [Hfind ->]].
    apply list_find_Some in Hfind as (Hi & [Heng Hrus] & Hfirst).
    exists i, eng. repeat split; [done..|].
    intros j eng' rus'' Hj Hlook. exact (Hfirst j (eng', rus'') Hlook Hj).
  - intros (i & eng & Hi & Heng & Hrus & Hfirst). exists (i, (eng, rus)).
    split; [|done]. apply list_find_Some. repeat split; [done..|].
    intros j [eng' rus'] Hlook Hj. by apply (Hfirst j).
Qed.

Lemma exact_english_None tok :
  exact_english translations tok detected = None <->
  forall eng rus, (eng, rus) ∈ translations -> rus ∈ detected -> tok <> py_lower eng.
Proof.
  unfold exact_english. rewrite fmap_None, list_find_None, Forall_forall. split.
  - intros Hnone eng rus Hin Hrus Heq. by apply (Hnone (eng, rus)).
  - intros Hnone [eng rus] Hin [Heq Hrus]. by apply (Hnone eng rus).
Qed.

(** *** Level 3: the running maximum *)

Lemma fuzzy_candidates tok :
  fuzzy translations tok detected =
  foldl (consider_candidate tok) (None, 0%Q) (candidates translations detected).
Proof.
  unfold fuzzy, candidates, fuzzy_english, fuzzy_russian.
  rewrite foldl_app. generalize (None : option str, 0%Q) as best. intros best.
  replace (foldl (consider_candidate tok) best
             (map (fun d : str => (d, d)) detected))
    with (foldl (fun best d => consider tok d d best) best detected).
  2:{ revert best. induction detected as [|d ds IH]; intros best; simpl; [done|].
      by rewrite IH. }
  generalize (foldl (fun best d => consider tok d d best) best detected) as best'.
  induction translations as [|item items IH]; intros best'; simpl; [done|].
  rewrite filter_cons. destruct (decide (item.2 ∈ detected)) as [Hin|Hin].
  - rewrite bool_decide_eq_true_2 by done. simpl. apply IH.
  - rewrite bool_decide_eq_false_2 by done. apply IH.
Qed.

Lemma best_of_step tok l best cand :
  best_of tok l best -> best_of tok (l ++ [cand]) (consider_candidate tok best cand).
Proof.
  intros Hbest. unfold consider_candidate, consider.
  fold (score tok cand).
  destruct Hbest as [Hlow | i top Hi Htop Hmax Hfirst]; simpl.
  - destruct (Qlt_le_dec 0 (score tok cand)) as [Hpos|Hpos];
      [destruct (Qlt_le_dec (3 # 5) (score tok cand)) as [Hhigh|Hhigh]|].
    + apply (best_some tok _ (length l) cand).
      * by rewrite lookup_app_r, Nat.sub_diag by lia.
      * done.
      * intros c [Hc | Hc%list_elem_of_singleton]%elem_of_app.
        -- apply Qlt_le_weak. eapply Qle_lt_trans; [by apply Hlow | done].
        -- subst. apply Qle_refl.
      * intros j c Hj Hc. rewrite lookup_app_l in Hc by done.
        eapply Qle_lt_trans; [|exact Hhigh]. apply Hlow.
        by eapply list_elem_of_lookup_2.
    + apply best_none.
      intros c [Hc | Hc%list_elem_of_singleton]%elem_of_app; [by apply Hlow | by subst].
    + apply best_none.
      intros c [Hc | Hc%list_elem_of_singleton]%elem_of_app; [by apply Hlow|].
      subst. eapply Qle_trans; [exact Hpos | done].
  - assert (i < length l) as Hlt by by eapply lookup_lt_Some.
    destruct (Qlt_le_dec (score tok top) (score tok cand)) as [Hgt|Hle];
      [destruct (Qlt_le_dec (3 # 5) (score tok cand)) as [Hhigh|Hhigh]|].
    + apply (best_some tok _ (length l) cand).
      * by rewrite lookup_app_r, Nat.sub_diag by lia.
      * done.
      * intros c [Hc | Hc%list_elem_of_singleton]%elem_of_app.
        -- apply Qlt_le_weak. eapply Qle_lt_trans; [by apply Hmax | done].
        -- subst. apply Qle_refl.
      * intros j c Hj Hc. rewrite lookup_app_l in Hc by done.
        eapply Qle_lt_trans; [|exact Hgt]. apply Hmax.
        by eapply list_elem_of_lookup_2.
    + exfalso. apply (Qlt_irrefl (3 # 5)).
      eapply Qlt_le_trans; [exact Htop|].
      eapply Qle_trans; [apply Qlt_le_weak; exact Hgt | exact Hhigh].
    + apply (best_some tok _ i top).
      * by rewrite lookup_app_l.
      * done.
      * intros c [Hc | Hc%list_elem_of_singleton]%elem_of_app; [by apply Hmax | by subst].
      * intros j c Hj Hc. rewrite lookup_app_l in Hc by lia. by eapply Hfirst.
Qed.

Lemma best_of_foldl tok l :
  best_of tok l (foldl (consider_candidate tok) (None, 0%Q) l).
Proof.
  induction l as [|cand l IH] using rev_ind.
  - apply best_none. by intros c Hc%elem_of_nil.
  - rewrite foldl_app. simpl. by apply best_of_step.
Qed.

Lemma fuzzy_best tok :
  best_of tok (candidates translations detected) (fuzzy translations tok detected).
Proof. rewrite fuzzy_candidates. apply best_of_foldl. Qed.

Lemma candidate_detected cand :
  cand ∈ candidates translations detected -> cand.2 ∈ detected.
Proof.
  unfold candidates. intros [Hc | Hc]%elem_of_app.
  - apply list_elem_of_fmap in Hc as (d & -> & Hd). done.
  - by apply list_elem_of_filter in Hc as [? _].
Qed.

Lemma fuzzy_detected tok c :
  (fuzzy translations tok detected).1 = Some c -> c ∈ detected.
Proof.
  intros H. destruct (fuzzy_best tok) as [Hlow | i cand Hi _ _ _]; [done|].
  simpl in H. injection H as <-. apply candidate_detected.
  by eapply list_elem_of_lookup_2.
Qed.

End Matcher.

Section Matching.

Context {runtime : Unicode}.

Variable translations : list (str * str).
Variable detected : list str.

Implicit Types (tok c : str) (r : match_result).

Local Abbreviation step := (match_step translations detected).
Local Abbreviation matched toks :=
  (match_user_classes_to_detected translations toks detected).

Lemma match_step_record r tok : step r tok = record tok (resolve translations tok detected) r.
Proof.
  unfold match_step, resolve, record.
  destruct (exact_russian tok detected); [done|].
  destruct (exact_english translations tok detected); [done|].
  by destruct (fuzzy translations tok detected).1.
Qed.

Lemma resolve_detected tok c :
  resolve translations tok detected = Exact c \/ resolve translations tok detected = Alternate c
  \/ resolve translations tok detected = Fuzzy c ->
  c ∈ detected.
Proof.
  unfold resolve.
  destruct (exact_russian tok detected) as [d|] eqn:H1.
  { intros [[= <-] | [? | ?]]; try done.
    apply exact_russian_Some in H1 as (i & Hi & _). by eapply list_elem_of_lookup_2. }
  destruct (exact_english translations tok detected) as [rus|] eqn:H2.
  { intros [? | [[= <-] | ?]]; try done.
    by apply exact_english_Some in H2 as (i & eng & _ & _ & Hrus & _). }
  destruct (fuzzy translations tok detected).1 as [b|] eqn:H3.
  - intros [? | [? | [= <-]]]; try done. by eapply fuzzy_detected.
  - by intros [? | [? | ?]].
Qed.

(** *** Invariants of the loop over the tokens *)

Lemma foldl_invariant {A B} (P : A -> Prop) (f : A -> B -> A) (l : list B) (a : A) :
  P a -> (forall a b, b ∈ l -> P a -> P (f a b)) -> P (foldl f a l).
Proof.
  revert a. induction l as [|b l IH]; intros a Ha Hstep; simpl; [done|].
  apply IH.
  - apply Hstep; [left | done].
  - intros a' b' Hb'. apply Hstep. by right.
Qed.

Lemma add_class_elem c c' valid : c' ∈ add_class c valid <-> c' ∈ valid \/ c' = c.
Proof.
  unfold add_class. case_bool_decide as Hc.
  - split; [by left | by intros [? | ->]].
  - rewrite elem_of_app, list_elem_of_singleton. done.
Qed.

Lemma add_class_NoDup c valid : NoDup valid -> NoDup (add_class c valid).
Proof.
  intros Hnd. unfold add_class. case_bool_decide as Hc; [done|].
  apply NoDup_app. repeat split; [done | | apply NoDup_singleton].
  intros x Hx ->%list_elem_of_singleton. done.
Qed.

Lemma add_class_length c valid : length valid <= length (add_class c valid).
Proof.
  unfold add_class. case_bool_decide; [done|]. rewrite length_app. lia.
Qed.

Lemma record_valid_mono tok o r c :
  c ∈ valid_classes r -> c ∈ valid_classes (record tok o r).
Proof.
  intros Hc. destruct o as [d | d | d |]; simpl; try done.
  - apply add_class_elem. by left.
  - apply add_class_elem. by left.
  - destruct (_ && _); simpl; [|done].
    apply elem_of_app. by left.
Qed.

Lemma record_valid_ok tok r :
  valid_ok detected r -> valid_ok detected (record tok (resolve translations tok detected) r).
Proof.
  intros [Hnd Hsub].
  pose proof (resolve_detected tok) as Hdet.
  destruct (resolve translations tok detected) as [d | d | d |]; simpl; [| | |done].
  - split; [by apply add_class_NoDup|].
    intros c [Hc | ->]%add_class_elem; [by apply Hsub | apply Hdet; auto].
  - split; [by apply add_class_NoDup|].
    intros c [Hc | ->]%add_class_elem; [by apply Hsub | apply Hdet; auto].
  - destruct d as [|x d]; [done|]. simpl.
    case_bool_decide as Hnew; [|done]. simpl. split.
    + apply NoDup_app. repeat split; [done | | apply NoDup_singleton].
      intros c Hc ->%list_elem_of_singleton. done.
    + intros c [Hc | ->%list_elem_of_singleton]%elem_of_app;
        [by apply Hsub | apply Hdet; auto].
Qed.

(** The resolved list has no duplicate and holds detected classes only. *)
Lemma match_valid_classes toks :
  NoDup (valid_classes (matched toks))
  /\ forall c, c ∈ valid_classes (matched toks) -> c ∈ detected.
Proof.
  unfold match_user_classes_to_detected.
  apply (foldl_invariant (valid_ok detected)).
  - split; [constructor | by intros c Hc%elem_of_nil].
  - intros r tok _ Hr. rewrite match_step_record. by apply record_valid_ok.
Qed.

Lemma step_suggestions_ok toks r tok :
  tok ∈ toks -> suggestions_ok translations detected toks r ->
  suggestions_ok translations detected toks (step r tok).
Proof.
  intros Htok [Hsug Hlen]. unfold match_step.
  destruct (exact_russian tok detected) as [d|] eqn:H1; simpl.
  { split; simpl.
    - intros t c Hin. destruct (Hsug t c Hin) as (? & ? & ? & ? & ?).
      repeat split; try done. apply add_class_elem. by left.
    - etrans; [exact Hlen | apply add_class_length]. }
  destruct (exact_english translations tok detected) as [rus|] eqn:H2; simpl.
  { split; simpl.
    - intros t c Hin. destruct (Hsug t c Hin) as (? & ? & ? & ? & ?).
      repeat split; try done. apply add_class_elem. by left.
    - etrans; [exact Hlen | apply add_class_length]. }
  destruct (fuzzy translations tok detected).1 as [b|] eqn:H3; [|by split].
  destruct (_ && _); [|by split].
  split; simpl.
  - intros t c [Hin | Hin%list_elem_of_singleton]%elem_of_app.
    + destruct (Hsug t c Hin) as (? & ? & ? & ? & ?).
      repeat split; try done. apply elem_of_app. by left.
    + injection Hin as -> ->. repeat split; try done.
      apply elem_of_app. right. by apply list_elem_of_singleton.
  - rewrite !length_app. simpl. lia.
Qed.

(** C10. Every pair of the corrections comes from a token that neither exact
    level matched and that the fuzzy level resolved to the class of the pair;
    that class is in the resolved list; and the corrections are no more than
    the resolved classes. *)
Theorem suggestions_from_fuzzy toks :
  (forall tok c, (tok, c) ∈ suggestions (matched toks) ->
     tok ∈ toks
     /\ exact_russian tok detected = None
     /\ exact_english translations tok detected = None
     /\ (fuzzy translations tok detected).1 = Some c
     /\ c ∈ valid_classes (matched toks))
  /\ length (suggestions (matched toks)) <= length (valid_classes (matched toks)).
Proof.
  unfold match_user_classes_to_detected.
  apply (foldl_invariant (suggestions_ok translations detected toks)).
  - split; [by intros tok c Hin%elem_of_nil | done].
  - intros r tok Htok Hr. by apply step_suggestions_ok.
Qed.

(** *** The order of the levels *)





End Matching.

(** ** The handlers *)

Section Frames.

Context {runtime : Unicode} {bot : Bot}.

Lemma bind_run {St A B} (m : M St A) (f : A -> M St B) s log :
  (m ≫= f) s log =
  match result (m s log) with
  | Returned a => f a (final (m s log)) (sent (m s log))
  | Raised e => Run (Raised e) (final (m s log)) (sent (m s log))
  end.
Proof. done. Qed.

Lemma frame_ret {St A} (a : A) : frame (St := St) (mret a).
Proof. done. Qed.

Lemma frame_raise {St A} e : frame (St := St) (A := A) (raise e).
Proof. done. Qed.

Lemma frame_get {St} : frame (St := St) get.
Proof. done. Qed.

Lemma frame_item {St A} (o : option A) : frame (St := St) (item o).
Proof. by destruct o. Qed.

Lemma frame_lift {St A} (o : outcome A) : frame (St := St) (lift o).
Proof. by destruct o. Qed.

Lemma frame_reply {St} msg : frame (St := St) (reply msg).
Proof. intros s log. unfold reply. by destruct (delivered _). Qed.

Lemma frame_bind {St A B} (m : M St A) (f : A -> M St B) :
  frame m -> (forall a, frame (f a)) -> frame (m ≫= f).
Proof.
  intros Hm Hf s log. rewrite bind_run.
  destruct (result (m s log)) as [a|e]; simpl; [|apply Hm].
  rewrite Hf. apply Hm.
Qed.

Lemma frame_try_except {St A} (m : M St A) (h : exn -> M St A) :
  frame m -> (forall e, frame (h e)) -> frame (try_except m h).
Proof.
  intros Hm Hh s log. unfold try_except.
  destruct (result (m s log)) as [a|e]; [apply Hm|].
  rewrite Hh. apply Hm.
Qed.

Lemma ends_with_modify {St} (g : St -> St) : ends_with g (modify g).
Proof. intros s log. by left. Qed.

Lemma ends_with_bind {St A} (g : St -> St) (m : M St A) (f : A -> M St unit) :
  frame m -> (forall a, ends_with g (f a)) -> ends_with g (m ≫= f).
Proof.
  intros Hm Hf s log. rewrite bind_run.
  destruct (result (m s log)) as [a|e] eqn:Hr; simpl.
  - specialize (Hf a (final (m s log)) (sent (m s log))).
    by rewrite Hm in *.
  - right. split; [by exists e | apply Hm].
Qed.

Lemma reply_sent {St} msg (s : St) log :
  sent (reply msg s log) = log ++ [(msg, delivered (length log))].
Proof. unfold reply. by destruct (delivered _). Qed.

Lemma reply_result {St} msg (s : St) log :
  result (reply msg s log) =
  if delivered (length log) then Returned tt else Raised TelegramError.
Proof. unfold reply. by destruct (delivered _). Qed.

Lemma frame_detector_translations {St} : frame (St := St) detector_translations.
Proof. unfold detector_translations. by destruct detector. Qed.

Lemma frame_english_classes {St} classes : frame (St := St) (english_classes classes).
Proof.
  destruct classes; [done|]. apply frame_bind; [|done].
  apply frame_detector_translations.
Qed.

Lemma frame_send_masks results selected : frame (send_masks results selected).
Proof.
  induction selected as [|c rest IH]; simpl; [done|].
  destruct (results !! c).
  - apply frame_bind; [apply frame_reply|]. intros _.
    apply frame_bind; [done|]. intros lists. apply frame_ret.
  - apply frame_bind; [done|]. intros lists. apply frame_ret.
Qed.

Lemma frame_send_final_summary successful failed counts :
  frame (send_final_summary successful failed counts).
Proof.
  unfold send_final_summary. apply frame_bind; [|intros ?; apply frame_reply].
  destruct failed; [done|]. apply frame_bind; [|done].
  apply frame_detector_translations.
Qed.

Lemma frame_match_in_bot user_classes detected_names :
  frame (match_in_bot user_classes detected_names).
Proof.
  unfold match_in_bot. destruct detector; [done|]. by destruct (forallb _ _).
Qed.

(** With a detector, the [try] of [perform_segmentation] sets the state to
    [waiting_photo] as its last step and touches the session nowhere else. *)
Lemma segmentation_try_ends d :
  detector = Some d -> ends_with (set_state waiting_photo) segmentation_try.
Proof.
  intros Hd. unfold segmentation_try. rewrite Hd.
  apply ends_with_bind; [apply frame_get|]. intros s.
  apply ends_with_bind; [apply frame_item|]. intros selected.
  apply ends_with_bind; [apply frame_item|]. intros image.
  apply ends_with_bind; [apply frame_item|]. intros counts.
  apply ends_with_bind; [apply frame_lift|]. intros results.
  apply ends_with_bind; [apply frame_send_masks|]. intros lists.
  apply ends_with_bind; [apply frame_send_final_summary|]. intros _.
  apply ends_with_modify.
Qed.

Lemma perform_segmentation_final s log :
  final (perform_segmentation s log) = s
  \/ final (perform_segmentation s log) = set_state waiting_photo s.
Proof.
  unfold perform_segmentation, try_except.
  destruct detector as [d|] eqn:Hd.
  - destruct (segmentation_try_ends d Hd s log) as [[Hr Hf] | [[e Hr] Hf]];
      rewrite Hr.
    + by right.
    + left. by rewrite frame_reply.
  - left. assert (frame segmentation_try) as Hframe.
    { unfold segmentation_try. rewrite Hd. apply frame_reply. }
    destruct (result _); [apply Hframe | by rewrite frame_reply].
Qed.

End Frames.

Section Conversation.

Context {runtime : Unicode} {bot : Bot}.


(** C6. When the detector finds no class in the photo, [user_sessions] is left
    as it was, whatever becomes of the replies; and when the replies go
    through, they are the acknowledgement and the no-objects text. *)
Theorem handle_photo_no_objects d user_id photo_bytes counts annotated sessions log :
  detector = Some d ->
  detect_objects d photo_bytes = Returned ([], counts, annotated) ->
  let r := handle_photo user_id (Returned photo_bytes) sessions log in
  final r = sessions
  /\ (delivered (length log) = true ->
      delivered (S (length log)) = true ->
      result r = Returned tt
      /\ sent r = log ++ [(Config PHOTO_RECEIVED, true);
                          (Config ERROR_NO_OBJECTS, true)]).
Proof.
  intros Hd Hdetect r. subst r. unfold handle_photo. rewrite Hd.
  unfold try_except. rewrite bind_run, reply_result, frame_reply, reply_sent.
  destruct (delivered (length log)) eqn:Hdel1; simpl.
  - rewrite bind_run. simpl. rewrite bind_run, Hdetect. simpl.
    rewrite reply_result, length_app. simpl. rewrite Nat.add_1_r.
    destruct (delivered (S (length log))) eqn:Hdel2;
      rewrite ?frame_reply, ?reply_sent, ?reply_result, ?length_app; simpl;
      rewrite ?Nat.add_1_r, ?Hdel2, <- ?app_assoc; done.
  - rewrite frame_reply. done.
Qed.

(** What [class_selection] leaves of the session: the session as it was, or
    the session with the resolved classes of the text stored and the state
    moved on. *)
Lemma class_selection_final text s log :
  final (class_selection text s log) = s
  \/ exists translations names st,
       detected_classes s = Some names
       /\ final (class_selection text s log)
          = set_state st
              (set_selected_classes
                 (valid_classes
                    (match_user_classes_to_detected translations
                       (parse_user_classes text) names)) s).
Proof.
  unfold class_selection. rewrite bind_run. simpl.
  destruct (detected_classes s) as [names|] eqn:Hnames;
    rewrite bind_run; simpl; [|by left].
  destruct (class_counts s) as [counts|]; rewrite bind_run; simpl; [|by left].
  destruct (parse_user_classes text) as [|tok toks] eqn:Hparse;
    [left; apply frame_reply|].
  rewrite bind_run.
  pose proof (frame_match_in_bot (tok :: toks) names s log) as Hframe.
  assert (forall r, result (match_in_bot (tok :: toks) names s log) = Returned r ->
                    exists translations,
                      r = match_user_classes_to_detected translations (tok :: toks) names)
    as Hmatch.
  { unfold match_in_bot. destruct detector as [d|].
    - intros r [= <-]. by eexists.
    - destruct (forallb _ _); [|done]. intros r [= <-]. by eexists. }
  destruct (result (match_in_bot (tok :: toks) names s log)) as [r|e];
    [|by left].
  destruct (Hmatch r eq_refl) as [translations ->]. clear Hmatch.
  rewrite Hframe. clear Hframe.
  set (m := match_user_classes_to_detected translations (tok :: toks) names).
  rewrite bind_run.
  match goal with
  | |- context [result (?missing s ?l)] =>
      assert (frame missing) as Hmissing;
      [ destruct (invalid_classes m); [done|];
        apply frame_bind; [apply frame_english_classes | done]
      | rewrite (Hmissing s); destruct (result (missing s l)) as [parts|e];
        [|by left] ]
  end.
  destruct (valid_classes m) as [|c valid] eqn:Hvalid; [left; apply frame_reply|].
  rewrite bind_run, frame_reply, reply_result.
  destruct (delivered _); [|by left].
  rewrite !bind_run. simpl. rewrite frame_reply, reply_result.
  destruct (delivered _); simpl.
  - right. exists translations, names.
    match goal with
    | |- context [perform_segmentation ?s' ?l'] =>
        destruct (perform_segmentation_final s' l') as [Hf | Hf]; rewrite Hf
    end.
    + exists processing_segmentation. subst m. by rewrite Hvalid.
    + exists waiting_photo. subst m. by rewrite Hvalid.
  - right. exists translations, names, processing_segmentation.
    subst m. by rewrite Hvalid.
Qed.

(** C7. The resolved list has no duplicate and holds detected classes only;
    so the selected classes that [handle_class_selection] stores in a session
    are, when it stores any, without duplicate and among the detected classes
    of that session, which it does not change. *)
Theorem selected_classes_detected translations toks names user_id text sessions log :
  (NoDup (valid_classes (match_user_classes_to_detected translations toks names))
   /\ forall c,
        c ∈ valid_classes (match_user_classes_to_detected translations toks names) ->
        c ∈ names)
  /\ forall s,
       sessions !! user_id = Some s ->
       exists s',
         final (handle_class_selection user_id text sessions log) !! user_id = Some s'
         /\ detected_classes s' = detected_classes s
         /\ (s' = s
             \/ exists selected detected_names,
                  selected_classes s' = Some selected
                  /\ detected_classes s' = Some detected_names
                  /\ NoDup selected
                  /\ forall c, c ∈ selected -> c ∈ detected_names).
Proof.
  split; [apply match_valid_classes|].
  intros s Hs. unfold handle_class_selection, on_session. rewrite Hs. simpl.
  eexists. split; [apply lookup_insert_eq|].
  destruct (class_selection_final text s log)
    as [-> | (tr & det & st & Hdet & ->)]; [by split; [|left]|].
  split; [done|]. right. exists (valid_classes (match_user_classes_to_detected tr
                                   (parse_user_classes text) det)), det.
  simpl. repeat split; [done | apply match_valid_classes..].
Qed.

End Conversation.

(** ** The claims on concrete inputs *)

Section Examples.

#[local] Existing Instance basic_tables.

Local Abbreviation translations := YOLOObjectDetector.class_translations.

(** [tokenize("car, person;  bicycle")] *)
Example parse_three_classes :
  parse_user_classes (py "car, person;  bicycle")
  = [py "car"; py "person"; py "bicycle"].
Proof. vm_compute. reflexivity. Qed.

(** [tokenize("a b")] *)
Example parse_short_tokens : parse_user_classes (py "a b") = [].
Proof. vm_compute. reflexivity. Qed.

Example parse_empty : parse_user_classes [] = [].
Proof. vm_compute. reflexivity. Qed.

(** [match(["car"], ["автомобиль"])]: an exact alternate match, no correction. *)
Example match_car :
  match_user_classes_to_detected translations [py "car"] [py "автомобиль"]
  = MatchResult [py "автомобиль"] [] [].
Proof. vm_compute. reflexivity. Qed.

Example match_unknown :
  match_user_classes_to_detected translations [py "xyz123"] [py "автомобиль"]
  = MatchResult [] [py "xyz123"] [].
Proof. vm_compute. reflexivity. Qed.

Example match_fuzzy :
  match_user_classes_to_detected translations [py "cars"] [py "автомобиль"]
  = MatchResult [py "автомобиль"] [] [(py "cars", py "автомобиль")].
Proof. vm_compute. reflexivity. Qed.

(** C4, the claim as stated fails: the score of two empty strings is not 0. *)
Lemma similarity_empty_not_zero : ~ (calculate_similarity [] [] == 0)%Q.
Proof. vm_compute. discriminate. Qed.

(** C8, the claim as stated fails: two different strings with score 1. *)
Lemma similarity_one_unequal :
  (calculate_similarity (py "ab") (py "ba") == 1)%Q /\ py "ab" <> py "ba".
Proof. split; [vm_compute; reflexivity | vm_compute; discriminate]. Qed.

(** C2, the case the code misses: "cars" resolves by the fuzzy level to the
    class that "car" has already put in the resolved list, and is reported as
    not found, although a repeated exact match is dropped in silence. *)
Theorem fuzzy_duplicate_reported :
  match_user_classes_to_detected translations [py "car"; py "cars"] [py "автомобиль"]
  = MatchResult [py "автомобиль"] [py "cars"] []
  /\ match_user_classes_to_detected translations [py "car"; py "car"] [py "автомобиль"]
     = MatchResult [py "автомобиль"] [] [].
Proof. split; vm_compute; reflexivity. Qed.

(** C5, the case the code misses: the underscore is no letter, digit, space or
    separator, yet [\w] keeps it, so it ends up in a token. *)
Theorem parse_user_classes_underscore :
  parse_user_classes (py "a_b") = [py "a_b"]
  /\ tokenize_spec (py "a_b") = []
  /\ parse_user_classes (py "__") = [py "__"]
  /\ tokenize_spec (py "__") = [].
Proof. repeat split; vm_compute; reflexivity. Qed.




(** C6 on an empty photo, in which the detector finds nothing. *)
Lemma handle_photo_no_objects_empty :
  detector (Bot := demo_bot) = Some demo_detector
  /\ detect_objects demo_detector [] = Returned ([], ∅, [])
  /\ final (handle_photo (bot := demo_bot) 7
              (Returned []) {[ 7%Z := demo_session [Byte.x01] ]} [])
     = {[ 7%Z := demo_session [Byte.x01] ]}.
Proof.
  split; [reflexivity|]. split; [reflexivity|].
  apply (handle_photo_no_objects (bot := demo_bot) demo_detector 7 [] ∅ []
           {[ 7%Z := demo_session [Byte.x01] ]} [] eq_refl eq_refl).
Defined.

End Examples.

(** * Further facts *)

(** ** The similarity scorer and the tokenizer *)

Section Scorer.

Context {runtime : Unicode}.

(** X1. The score is a number between 0 and 1, on every pair of strings. *)
Theorem calculate_similarity_range (a b : str) :
  (0 <= calculate_similarity a b <= 1)%Q.
Proof.
  destruct (decide (a = b)) as [->|Hne].
  { rewrite similarity_equal. done. }
  destruct (str_in a b || str_in b a) eqn:H.
  - rewrite similarity_substring by done. done.
  - rewrite similarity_jaccard by done. apply jaccard_bounds.
    by apply jaccard_branch.
Qed.

Lemma substring_cons (a b : str) c : substring a b -> substring a (c :: b).
Proof. intros (pre & post & ->). by exists (c :: pre), post. Qed.

Lemma substring_prefix (a b : str) : a `prefix_of` b -> substring a b.
Proof. intros [k ->]. by exists [], k. Qed.

(** The first piece of the split begins the text, and is empty when the text
    begins with a separator; every piece is a contiguous block of the text. *)
Lemma re_split_shape text :
  exists piece pieces,
    re_split text = piece :: pieces
    /\ piece `prefix_of` text
    /\ (forall c rest, text = c :: rest -> separator c = true -> piece = [])
    /\ Forall (fun p => substring p text) pieces.
Proof.
  induction text as [|c rest (piece & pieces & Hsplit & Hpre & Hsep & Hsub)]; simpl.
  { exists [], []. by split_and!. }
  assert (Forall (fun p => substring p (c :: rest)) pieces) as Hsub'.
  { eapply Forall_impl; [exact Hsub|]. intros p Hp. by apply substring_cons. }
  assert (substring piece (c :: rest)) as Hpiece.
  { by apply substring_cons, substring_prefix. }
  destruct (separator c) eqn:Hc.
  - destruct rest as [|c' rest'].
    + exists [], (piece :: pieces). rewrite Hsplit.
      split_and!; try done; [apply prefix_nil | by constructor].
    + destruct (separator c') eqn:Hc'.
      * exists piece, pieces. rewrite (Hsep c' rest' eq_refl Hc') in *.
        split_and!; try done. apply prefix_nil.
      * exists [], (piece :: pieces). rewrite Hsplit.
        split_and!; try done; [apply prefix_nil | by constructor].
  - rewrite Hsplit. exists (c :: piece), pieces.
    split_and!; try done; [by apply prefix_cons|].
    intros c0 rest0 [= <- <-] Hc0. congruence.
Qed.

Lemma re_split_substring text :
  Forall (fun piece => substring piece text) (re_split text).
Proof.
  destruct (re_split_shape text) as (piece & pieces & -> & Hpre & _ & Hsub).
  constructor; [by apply substring_prefix | done].
Qed.

(** A token has at least two characters and no separator among them. *)
Lemma token_clean text cls :
  cls ∈ parse_user_classes text ->
  2 <= length cls /\ Forall (fun c => separator c = false) cls.
Proof.
  rewrite parse_user_classes_pieces. intros [Hlen Hin]%list_elem_of_filter.
  split; [done|].
  pose proof (re_split_pieces (sub_symbols (py_lower text))) as H.
  rewrite Forall_forall in H. by apply H.
Qed.

(** X2. A token has at least two characters, none of them a comma, a
    semicolon or whitespace, and is a contiguous block of the lower-cased
    text with its symbols blanked. *)
Theorem parse_user_classes_tokens text cls :
  cls ∈ parse_user_classes text ->
  2 <= length cls
  /\ Forall (fun c => separator c = false) cls
  /\ substring cls (sub_symbols (py_lower text)).
Proof.
  rewrite parse_user_classes_pieces. intros [Hlen Hin]%list_elem_of_filter.
  split; [done|]. split.
  - pose proof (re_split_pieces (sub_symbols (py_lower text))) as H.
    rewrite Forall_forall in H. by apply H.
  - pose proof (re_split_substring (sub_symbols (py_lower text))) as H.
    rewrite Forall_forall in H. by apply H.
Qed.

(** *** Joining and splitting *)

Lemma re_split_app piece text :
  Forall (fun c => separator c = false) piece ->
  re_split (piece ++ text) =
  match re_split text with
  | first :: pieces => (piece ++ first) :: pieces
  | [] => [piece]
  end.
Proof.
  pose proof (re_split_nonempty text) as Hne.
  induction 1 as [|c piece Hc _ IH]; simpl.
  - by destruct (re_split text).
  - rewrite Hc, IH. by destruct (re_split text).
Qed.

Lemma re_split_sep_cons sep c tail :
  separator sep = true -> separator c = false ->
  re_split (sep :: c :: tail) = [] :: re_split (c :: tail).
Proof. intros Hsep Hc. simpl. by rewrite Hsep, Hc. Qed.

Lemma join_cons_cons sep (p q : str) rest :
  join sep (p :: q :: rest) = p ++ sep :: join sep (q :: rest).
Proof. done. Qed.

Lemma re_split_join sep pieces :
  separator sep = true ->
  pieces <> [] ->
  Forall (fun p : str => p <> [] /\ Forall (fun c => separator c = false) p) pieces ->
  re_split (join sep pieces) = pieces.
Proof.
  intros Hsep Hne Hpieces.
  induction Hpieces as [|p rest [Hp Hclean] Hrest IH]; [done|]. clear Hne.
  destruct rest as [|q rest'].
  - simpl. rewrite <- (app_nil_r p) at 1. rewrite re_split_app by done.
    simpl. by rewrite app_nil_r.
  - rewrite join_cons_cons, re_split_app by done.
    assert (re_split (sep :: join sep (q :: rest')) = [] :: q :: rest') as ->.
    { inversion Hrest as [|? ? [Hq Hqclean] _]; subst.
      assert (exists c tail, join sep (q :: rest') = c :: tail /\ separator c = false)
        as (c & tail & Hjoin & Hc).
      { destruct q as [|c q]; [done|]. inversion Hqclean; subst.
        destruct rest'; simpl; eauto. }
      rewrite Hjoin, re_split_sep_cons, <- Hjoin, IH by done. done. }
    by rewrite app_nil_r.
Qed.

Lemma separator_kept c : separator c = true -> kept c = true.
Proof.
  unfold separator, kept. intros H.
  destruct (bool_decide (c = 44%N)), (bool_decide (c = 59%N)), (py_isspace c);
    try done; by rewrite ?orb_true_r.
Qed.

Lemma sub_symbols_kept text :
  Forall (fun c => kept c = true) text -> sub_symbols text = text.
Proof.
  unfold sub_symbols. induction 1 as [|c text Hc _ IH]; simpl; [done|].
  by rewrite Hc, IH.
Qed.

Lemma join_Forall (P : char -> Prop) sep pieces :
  P sep -> Forall (Forall P) pieces -> Forall P (join sep pieces).
Proof.
  intros Hsep. induction 1 as [|p rest Hp _ IH]; simpl; [done|].
  destruct rest; [done|]. apply Forall_app. split; [done|]. by constructor.
Qed.

Lemma filter_all {A} (P : A -> Prop) `{!forall x, Decision (P x)} (l : list A) :
  Forall P l -> filter P l = l.
Proof.
  induction 1 as [|x l Hx _ IH]; [done|]. by rewrite filter_cons_True, IH.
Qed.

(** A clean token in lower case is read as itself. *)
Lemma parse_user_classes_one tok :
  py_lower tok = tok ->
  2 <= length tok ->
  Forall (fun c => kept c = true /\ separator c = false) tok ->
  parse_user_classes tok = [tok].
Proof.
  intros Hlower Hlen Hclean. rewrite parse_user_classes_pieces, Hlower.
  rewrite sub_symbols_kept
    by (eapply Forall_impl; [exact Hclean|]; by intros c [? _]).
  change (re_split tok) with (re_split (join 44%N [tok])).
  rewrite re_split_join; [by rewrite filter_cons_True | done | done |].
  constructor; [|done]. split.
  - intros ->. simpl in Hlen. lia.
  - eapply Forall_impl; [exact Hclean|]. by intros c [_ ?].
Qed.

(** X3. Tokens written out with one separator between them are read back
    as they were: for tokens of at least two kept characters, none a
    separator, in a text that lower-casing leaves alone. *)
Theorem parse_user_classes_join sep tokens :
  separator sep = true ->
  py_lower (join sep tokens) = join sep tokens ->
  Forall (fun t : str =>
            2 <= length t
            /\ Forall (fun c => kept c = true /\ separator c = false) t) tokens ->
  parse_user_classes (join sep tokens) = tokens.
Proof.
  intros Hsep Hlower Htokens. rewrite parse_user_classes_pieces, Hlower.
  rewrite sub_symbols_kept.
  2:{ apply join_Forall; [by apply separator_kept|].
      eapply Forall_impl; [exact Htokens|]. intros t [_ Ht].
      eapply Forall_impl; [exact Ht|]. by intros c [? _]. }
  destruct tokens as [|t tokens]; [done|].
  rewrite re_split_join; [|done|done|].
  - apply filter_all. eapply Forall_impl; [exact Htokens|]. by intros ? [? _].
  - eapply Forall_impl; [exact Htokens|]. intros p [Hlen Hp]. split.
    + intros ->. simpl in Hlen. lia.
    + eapply Forall_impl; [exact Hp|]. by intros c [_ ?].
Qed.

End Scorer.

(** ** The class resolver, beyond the order of its levels *)

Section Accounting.

Context {runtime : Unicode}.

Variable translations : list (str * str).
Variable detected : list str.

Implicit Types (tok c : str) (r : match_result).

Local Abbreviation step := (match_step translations detected).
Local Abbreviation matched toks :=
  (match_user_classes_to_detected translations toks detected).

Lemma matched_snoc toks tok : matched (toks ++ [tok]) = step (matched toks) tok.
Proof. unfold match_user_classes_to_detected. by rewrite foldl_app. Qed.

Lemma record_invalid_mono tok tok' o r :
  tok' ∈ invalid_classes r -> tok' ∈ invalid_classes (record tok o r).
Proof.
  intros H. destruct o as [d | d | d |]; simpl; try done.
  - destruct (_ && _); simpl; [done|]. apply elem_of_app. by left.
  - apply elem_of_app. by left.
Qed.

(** What one token does to the result. *)
Lemma record_cases tok o r :
  (exists c, (o = Exact c \/ o = Alternate c \/ o = Fuzzy c)
             /\ c ∈ valid_classes (record tok o r)
             /\ invalid_classes (record tok o r) = invalid_classes r)
  \/ ((o = Unresolved \/ exists c, o = Fuzzy c)
      /\ record tok o r
         = MatchResult (valid_classes r) (invalid_classes r ++ [tok]) (suggestions r)).
Proof.
  destruct o as [d | d | d |]; simpl.
  - left. exists d. split_and!; [auto | | done]. apply add_class_elem. by right.
  - left. exists d. split_and!; [auto | | done]. apply add_class_elem. by right.
  - destruct (_ && _); simpl.
    + left. exists d. split_and!; [auto | | done].
      apply elem_of_app. right. by apply list_elem_of_singleton.
    + right. split; [right; by exists d | done].
  - right. split; [by left | done].
Qed.

(** X4. No token is lost without a trace: every token is in the not-found
    list, or the class some level resolved it to is in the resolved list. *)
Theorem match_accounts_for_tokens toks tok :
  tok ∈ toks ->
  tok ∈ invalid_classes (matched toks)
  \/ exists c,
       c ∈ valid_classes (matched toks)
       /\ (resolve translations tok detected = Exact c
           \/ resolve translations tok detected = Alternate c
           \/ resolve translations tok detected = Fuzzy c).
Proof.
  induction toks as [|t toks IH] using rev_ind; [by intros ?%elem_of_nil|].
  rewrite matched_snoc, match_step_record.
  intros [Hin | ->%list_elem_of_singleton]%elem_of_app.
  - destruct (IH Hin) as [Hinv | (c & Hc & Hres)].
    + left. by apply record_invalid_mono.
    + right. exists c. split; [by apply record_valid_mono | done].
  - destruct (record_cases t (resolve translations t detected) (matched toks))
      as [(c & Ho & Hc & _) | [_ ->]].
    + right. by exists c.
    + left. simpl. apply elem_of_app. right. by apply list_elem_of_singleton.
Qed.

Lemma step_bookkeeping toks r tok :
  bookkeeping translations detected toks r ->
  bookkeeping translations detected (toks ++ [tok]) (step r tok).
Proof.
  intros (Hinv & Hsug & Hlen & Hexact). unfold match_step.
  assert (invalid_classes r `sublist_of` toks ++ [tok]) as Hinv'
    by by apply sublist_inserts_r.
  assert ((suggestions r).*1 `sublist_of` toks ++ [tok]) as Hsug'
    by by apply sublist_inserts_r.
  assert (forall c, length (add_class c (valid_classes r))
                    <= S (length (valid_classes r))) as Hadd.
  { intros c. unfold add_class. case_bool_decide; [lia|].
    rewrite length_app. simpl. lia. }
  destruct (exact_russian tok detected) as [d|] eqn:H1.
  { split_and!; simpl; try done. rewrite length_app. simpl.
    specialize (Hadd d). lia. }
  destruct (exact_english translations tok detected) as [rus|] eqn:H2.
  { split_and!; simpl; try done. rewrite length_app. simpl.
    specialize (Hadd rus). lia. }
  assert (bookkeeping translations detected (toks ++ [tok])
            (MatchResult (valid_classes r) (invalid_classes r ++ [tok])
               (suggestions r))) as Hunresolved.
  { split_and!; simpl; try done.
    - by apply sublist_app.
    - rewrite !length_app. simpl. lia.
    - intros t [Ht | ->%list_elem_of_singleton]%elem_of_app; [by apply Hexact | done]. }
  destruct (fuzzy translations tok detected).1 as [b|]; [|done].
  destruct (_ && _); [|done].
  split_and!; simpl; try done.
  - rewrite fmap_app. by apply sublist_app.
  - rewrite !length_app. simpl. lia.
Qed.

Lemma matched_bookkeeping toks :
  bookkeeping translations detected toks (matched toks).
Proof.
  induction toks as [|t toks IH] using rev_ind.
  - split_and!; simpl; try done. by intros tok ?%elem_of_nil.
  - rewrite matched_snoc. by apply step_bookkeeping.
Qed.

(** X5. The not-found list and the tokens of the corrections are taken from
    the token list in its order, each token is counted at most once between
    the resolved and the not-found list, and no token that an exact level
    matched is reported as not found. *)
Theorem match_bookkeeping toks :
  invalid_classes (matched toks) `sublist_of` toks
  /\ (suggestions (matched toks)).*1 `sublist_of` toks
  /\ length (valid_classes (matched toks)) + length (invalid_classes (matched toks))
     <= length toks
  /\ forall tok, tok ∈ invalid_classes (matched toks) ->
       exact_russian tok detected = None
       /\ exact_english translations tok detected = None.
Proof.
  apply matched_bookkeeping.
Qed.

Lemma step_valid_nil r tok :
  valid_classes (step r tok) = [] ->
  valid_classes r = []
  /\ step r tok
     = MatchResult (valid_classes r) (invalid_classes r ++ [tok]) (suggestions r).
Proof.
  rewrite match_step_record.
  destruct (record_cases tok (resolve translations tok detected) r)
    as [(c & _ & Hc & _) | [_ ->]].
  - intros Hnil. rewrite Hnil in Hc. by apply elem_of_nil in Hc.
  - simpl. by intros ->.
Qed.

(** When no class is resolved, every token is reported as not found, in the
    order of the input, and there is no correction. *)
Lemma nothing_resolved toks :
  valid_classes (matched toks) = [] ->
  matched toks = MatchResult [] toks [].
Proof.
  induction toks as [|t toks IH] using rev_ind; [done|].
  rewrite matched_snoc. intros Hnil.
  destruct (step_valid_nil _ _ Hnil) as [Hprev ->].
  by rewrite (IH Hprev).
Qed.

Lemma add_class_prefix c (l : list str) : l `prefix_of` add_class c l.
Proof. unfold add_class. case_bool_decide; [done | by apply prefix_app_r]. Qed.

Lemma step_extends r tok :
  valid_classes r `prefix_of` valid_classes (step r tok)
  /\ invalid_classes r `prefix_of` invalid_classes (step r tok)
  /\ suggestions r `prefix_of` suggestions (step r tok).
Proof.
  rewrite match_step_record.
  destruct (resolve translations tok detected) as [d | d | d |]; simpl.
  - split_and!; [apply add_class_prefix | done | done].
  - split_and!; [apply add_class_prefix | done | done].
  - destruct (_ && _); simpl; split_and!; try done; by apply prefix_app_r.
  - split_and!; try done. by apply prefix_app_r.
Qed.

(** X6. Tokens added on the right change nothing of what the tokens before
    them did: each of the three lists for a longer token list begins with
    the list for the shorter one. *)
Theorem match_extends toks more :
  let shorter := match_user_classes_to_detected translations toks detected in
  let longer := match_user_classes_to_detected translations (toks ++ more) detected in
  valid_classes shorter `prefix_of` valid_classes longer
  /\ invalid_classes shorter `prefix_of` invalid_classes longer
  /\ suggestions shorter `prefix_of` suggestions longer.
Proof.
  cbv zeta.
  induction more as [|t more (IH1 & IH2 & IH3)] using rev_ind.
  { by rewrite app_nil_r. }
  rewrite app_assoc, matched_snoc.
  destruct (step_extends (matched (toks ++ more)) t) as (H1 & H2 & H3).
  split_and!; by etrans.
Qed.

End Accounting.

Section Hints.

Context {runtime : Unicode}.

Implicit Types (tok : str).

(** X7. Nothing resolved means everything reported: the resolved list is
    empty exactly when the result is the token list as the not-found list,
    with no correction; that is so whenever the not-found list is the whole
    token list, and whenever no class was detected. *)
Theorem match_nothing_resolved translations detected toks :
  let r := match_user_classes_to_detected translations toks detected in
  (valid_classes r = [] <-> r = MatchResult [] toks [])
  /\ (invalid_classes r = toks -> valid_classes r = [])
  /\ match_user_classes_to_detected translations toks [] = MatchResult [] toks [].
Proof.
  intros r. subst r. split_and!.
  - split; [apply nothing_resolved | by intros ->].
  - intros Hinv.
    destruct (matched_bookkeeping translations detected toks) as (_ & _ & Hlen & _).
    rewrite Hinv in Hlen. apply length_zero_iff_nil. lia.
  - apply nothing_resolved.
    destruct (match_valid_classes translations [] toks) as [_ Hsub].
    destruct (valid_classes _) as [|c valid]; [done|].
    exfalso. apply (not_elem_of_nil c). apply Hsub. by left.
Qed.

(** X8. The exact levels match one-word names only: a token of a text is
    settled by level 1 only for a detected class whose name in lower case is
    the token, and by level 2 only through an English name that in lower
    case is the token; such a name has at least two characters and no
    whitespace, comma or semicolon. A class without such a name can be
    selected by the fuzzy level only. *)
Theorem exact_levels_one_word translations detected text tok :
  tok ∈ parse_user_classes text ->
  let one_word (name : str) :=
    py_lower name = tok
    /\ 2 <= length (py_lower name)
    /\ Forall (fun c => separator c = false) (py_lower name) in
  (forall d, resolve translations tok detected = Exact d ->
             d ∈ detected /\ one_word d)
  /\ (forall rus, resolve translations tok detected = Alternate rus ->
                  rus ∈ detected
                  /\ exists eng, (eng, rus) ∈ translations /\ one_word eng).
Proof.
  intros [Hlen Hclean]%token_clean one_word. subst one_word. unfold resolve. split.
  - intros d Hres.
    destruct (exact_russian tok detected) as [d'|] eqn:H1.
    2:{ destruct (exact_english _ _ _); [done|].
        by destruct (fuzzy _ _ _).1. }
    injection Hres as ->.
    apply exact_russian_Some in H1 as (i & Hi & -> & _).
    split; [by eapply list_elem_of_lookup_2 | done].
  - intros rus Hres.
    destruct (exact_russian tok detected) as [d'|] eqn:H1; [done|].
    destruct (exact_english translations tok detected) as [rus'|] eqn:H2.
    2:{ by destruct (fuzzy _ _ _).1. }
    injection Hres as ->.
    apply exact_english_Some in H2 as (i & eng & Hi & -> & Hrus & _).
    split; [done|]. exists eng. split; [by eapply list_elem_of_lookup_2 | done].
Qed.

Lemma english_name_Some translations rus eng :
  english_name translations rus = Some eng ->
  (eng, rus) ∈ translations /\ eng <> [].
Proof.
  unfold english_name.
  destruct (list_find _ translations) as [[i [e r]]|] eqn:Hfind; [|done].
  apply list_find_Some in Hfind as (Hi & Hr & _). simpl in Hr. subst r.
  destruct e as [|x e]; [done|]. intros [= <-].
  split; [exact (list_elem_of_lookup_2 _ _ _ Hi) | done].
Qed.

(** The English name of a detected class is settled by an exact level. *)
Lemma english_name_resolves translations detected rus eng :
  rus ∈ detected ->
  (eng, rus) ∈ translations ->
  (exists c, c ∈ detected
             /\ (resolve translations (py_lower eng) detected = Exact c
                 \/ resolve translations (py_lower eng) detected = Alternate c))
  /\ ((forall d, d ∈ detected -> py_lower d <> py_lower eng) ->
      (forall eng' rus', (eng', rus') ∈ translations -> rus' ∈ detected ->
                         py_lower eng' = py_lower eng -> rus' = rus) ->
      resolve translations (py_lower eng) detected = Alternate rus).
Proof.
  intros Hrus Hin. unfold resolve.
  destruct (exact_english translations (py_lower eng) detected) as [r|] eqn:H2.
  2:{ exfalso. eapply exact_english_None in H2; [|exact Hin|exact Hrus]. done. }
  apply exact_english_Some in H2 as (i & eng' & Hi & Heng' & Hr & _).
  split.
  - destruct (exact_russian (py_lower eng) detected) as [d|] eqn:H1.
    + apply exact_russian_Some in H1 as (j & Hj & _).
      exists d. split; [by eapply list_elem_of_lookup_2 | by left].
    + exists r. split; [done | by right].
  - intros Hcanon Hkeys.
    assert (exact_russian (py_lower eng) detected = None) as ->.
    { apply exact_russian_None. intros d Hd Heq. by apply (Hcanon d). }
    f_equal. eapply Hkeys; [by eapply list_elem_of_lookup_2 | done | done].
Qed.

(** X9. The hint works: a one-word English name that the bot shows for a
    detected class, typed back, is tokenized to itself in lower case and
    selects one detected class, with nothing not found and nothing
    corrected; it is the class the name was shown for when no other name
    is equal to it up to case. *)
Theorem hint_selects_class translations detected rus eng :
  rus ∈ detected ->
  english_name translations rus = Some eng ->
  py_lower (py_lower eng) = py_lower eng ->
  2 <= length (py_lower eng) ->
  Forall (fun c => kept c = true /\ separator c = false) (py_lower eng) ->
  parse_user_classes eng = [py_lower eng]
  /\ (exists c, c ∈ detected
                /\ match_user_classes_to_detected translations
                     (parse_user_classes eng) detected
                   = MatchResult [c] [] [])
  /\ ((forall d, d ∈ detected -> py_lower d <> py_lower eng) ->
      (forall eng' rus', (eng', rus') ∈ translations -> rus' ∈ detected ->
                         py_lower eng' = py_lower eng -> rus' = rus) ->
      match_user_classes_to_detected translations (parse_user_classes eng) detected
      = MatchResult [rus] [] []).
Proof.
  intros Hrus Hname Hidem Hlen Hclean.
  apply english_name_Some in Hname as [Hin _].
  assert (parse_user_classes eng = [py_lower eng]) as Hparse.
  { transitivity (parse_user_classes (py_lower eng)).
    - unfold parse_user_classes. by rewrite Hidem.
    - by apply parse_user_classes_one. }
  assert (match_user_classes_to_detected translations [py_lower eng] detected
          = record (py_lower eng)
              (resolve translations (py_lower eng) detected)
              (MatchResult [] [] [])) as Hone.
  { unfold match_user_classes_to_detected. simpl. apply match_step_record. }
  assert (forall c : str, add_class c [] = [c]) as Hadd.
  { intros c. unfold add_class. by rewrite bool_decide_eq_false_2 by apply not_elem_of_nil. }
  destruct (english_name_resolves translations detected rus eng Hrus Hin)
    as [(c & Hc & Hres) Hsame].
  rewrite Hparse, Hone. split_and!; [done | |].
  - exists c. split; [done|].
    destruct Hres as [-> | ->]; simpl; by rewrite Hadd.
  - intros Hcanon Hkeys. rewrite (Hsame Hcanon Hkeys). simpl. by rewrite Hadd.
Qed.

End Hints.

(** ** The detector *)

Section Detection.

Variable names : gmap Z str.
Variable translations : list (str * str).

Implicit Types (c : str) (b : box) (acc : list str * gmap str Z).

Local Abbreviation tally c boxes :=
  (Z.of_nat (length (filter (counts_for names translations c) boxes))).

Lemma count_of_insert (counts : gmap str Z) c c' n :
  count_of (<[c' := n]> counts) c = if decide (c = c') then n else count_of counts c.
Proof.
  unfold count_of. destruct (decide (c = c')) as [->|Hne].
  - by rewrite lookup_insert_eq.
  - by rewrite lookup_insert_ne.
Qed.

Lemma count_box_ok acc b acc' :
  count_box names translations acc b = Returned acc' ->
  tally_ok acc ->
  tally_ok acc'
  /\ (box_small b = false -> is_Some (names !! box_class b))
  /\ forall c, count_of acc'.2 c = (count_of acc.2 c + tally c [b])%Z.
Proof.
  unfold count_box. intros Hstep (Hnd & Hkeys & Hpos).
  destruct (box_small b) eqn:Hsmall.
  { injection Hstep as <-. split_and!; [done | done |].
    intros c. rewrite filter_cons_False, filter_nil; [simpl; lia|].
    intros [? _]. congruence. }
  destruct (names !! box_class b) as [class_name|] eqn:Hname; [|done].
  set (r := translate translations class_name) in *.
  assert (forall c, counts_for names translations c b <-> c = r) as Hfor.
  { intros c. unfold counts_for. rewrite Hname. simpl. subst r. naive_solver. }
  assert (forall c, tally c [b] = if decide (c = r) then 1%Z else 0%Z) as Htally.
  { intros c. destruct (decide (c = r)) as [->|Hne].
    - rewrite filter_cons_True by by apply Hfor. done.
    - rewrite filter_cons_False by by rewrite Hfor. done. }
  injection Hstep as <-. simpl. split_and!.
  - split_and!; simpl.
    + by apply add_class_NoDup.
    + intros c. rewrite add_class_elem, Hkeys.
      destruct (acc.2 !! r) as [n|] eqn:Hr; rewrite lookup_insert_is_Some;
        split; intros [H | H]; auto; destruct (decide (r = c)); naive_solver.
    + intros c n. destruct (acc.2 !! r) as [k|] eqn:Hr;
        (destruct (decide (c = r)) as [->|Hne];
         [rewrite lookup_insert_eq | rewrite lookup_insert_ne by done]).
      * intros [= <-]. specialize (Hpos r k Hr). lia.
      * apply Hpos.
      * intros [= <-]. lia.
      * apply Hpos.
  - by eexists.
  - intros c. rewrite Htally.
    destruct (acc.2 !! r) as [k|] eqn:Hr; rewrite count_of_insert;
      destruct (decide (c = r)) as [->|Hne]; try lia.
    + unfold count_of. rewrite Hr. simpl. lia.
    + unfold count_of. rewrite Hr. simpl. lia.
Qed.

Lemma count_boxes_ok boxes acc acc' :
  count_boxes names translations boxes acc = Returned acc' ->
  tally_ok acc ->
  tally_ok acc'
  /\ Forall (fun b => box_small b = false -> is_Some (names !! box_class b)) boxes
  /\ forall c, count_of acc'.2 c = (count_of acc.2 c + tally c boxes)%Z.
Proof.
  revert acc. induction boxes as [|b boxes IH]; intros acc Hloop Hok; simpl in Hloop.
  { injection Hloop as <-. split_and!; [done | done | intros c; simpl; lia]. }
  destruct (count_box names translations acc b) as [acc1|e] eqn:Hstep; [|done].
  destruct (count_box_ok _ _ _ Hstep Hok) as (Hok1 & Hname & Hcount1).
  destruct (IH _ Hloop Hok1) as (Hok' & Hnames & Hcount).
  split_and!; [done | by constructor |].
  intros c. rewrite Hcount, Hcount1.
  change (b :: boxes) with ([b] ++ boxes). rewrite filter_app, length_app. lia.
Qed.

Lemma tally_ok_empty : tally_ok ([], ∅).
Proof.
  split_and!; simpl.
  - constructor.
  - intros c. rewrite lookup_empty. split; [by intros ?%elem_of_nil | by intros [? ?]].
  - intros c n. by rewrite lookup_empty.
Qed.

Lemma tally_positive c boxes :
  (1 <= tally c boxes)%Z <-> exists b, b ∈ boxes /\ counts_for names translations c b.
Proof.
  split.
  - intros H. destruct (filter _ boxes) as [|b l] eqn:Hf; [simpl in H; lia|].
    exists b. assert (b ∈ filter (counts_for names translations c) boxes) as Hb
      by (rewrite Hf; left).
    by apply list_elem_of_filter in Hb as [? ?].
  - intros (b & Hb & Hc).
    assert (b ∈ filter (counts_for names translations c) boxes) as Hin
      by by apply list_elem_of_filter.
    destruct (filter _ boxes); [by apply elem_of_nil in Hin | simpl; lia].
Qed.

(** What a finished counting loop has counted. *)
Lemma count_boxes_result boxes detected counts :
  count_boxes names translations boxes ([], ∅) = Returned (detected, counts) ->
  NoDup detected
  /\ (forall c, c ∈ detected <-> is_Some (counts !! c))
  /\ (forall c, c ∈ detected <->
                exists b, b ∈ boxes /\ counts_for names translations c b)
  /\ (detected = [] <-> Forall (fun b => box_small b = true) boxes)
  /\ (forall c n, counts !! c = Some n -> (1 <= n)%Z /\ n = tally c boxes).
Proof.
  intros Hloop.
  destruct (count_boxes_ok _ _ _ Hloop tally_ok_empty)
    as ((Hnd & Hkeys & Hpos) & Hnames & Hcount). simpl in *.
  assert (forall c n, counts !! c = Some n -> (1 <= n)%Z /\ n = tally c boxes) as Hn.
  { intros c n Hc. split; [by eapply Hpos|].
    specialize (Hcount c). unfold count_of in Hcount.
    rewrite Hc, lookup_empty in Hcount. simpl in Hcount. lia. }
  assert (forall c, c ∈ detected <->
                    exists b, b ∈ boxes /\ counts_for names translations c b) as Hin.
  { intros c. rewrite <- tally_positive, Hkeys. split.
    - intros [n Hc]. destruct (Hn c n Hc). lia.
    - intros Hc. destruct (counts !! c) as [n|] eqn:Hlook; [by eexists|].
      specialize (Hcount c). unfold count_of in Hcount.
      rewrite Hlook, lookup_empty in Hcount. simpl in Hcount. lia. }
  split_and!; [done | done | done | | done].
  split.
  - intros ->. apply Forall_forall. intros b Hb.
    destruct (box_small b) eqn:Hsmall; [done|]. exfalso.
    rewrite Forall_forall in Hnames.
    destruct (Hnames b Hb Hsmall) as [class_name Hname].
    apply (not_elem_of_nil (translate translations class_name)), Hin.
    exists b. split; [done|]. split; [done|]. by rewrite Hname.
  - intros Hsmall. destruct detected as [|c detected]; [done|]. exfalso.
    destruct (proj1 (Hin c)) as (b & Hb & [Hlarge _]); [by left|].
    rewrite Forall_forall in Hsmall. specialize (Hsmall b Hb). congruence.
Qed.

End Detection.

Section DetectorFacts.

Variable m : Models.
Variable translations : list (str * str).

(** X10. The classes that [detect_objects] returns are distinct, they are
    the keys of the counts it returns, a class is among them exactly when
    some box that passes the area test translates to it, and there is none
    exactly when every box fails the area test. *)
Theorem detect_objects_classes image_bytes detected counts annotated :
  yolo_detect_objects m translations image_bytes
  = Returned (detected, counts, annotated) ->
  exists boxes,
    run_model m image_bytes = Returned boxes
    /\ NoDup detected
    /\ (forall c, c ∈ detected <-> is_Some (counts !! c))
    /\ (forall c, c ∈ detected <->
                  exists b, b ∈ default [] boxes
                            /\ counts_for (model_names m) translations c b)
    /\ (detected = [] <-> Forall (fun b => box_small b = true) (default [] boxes)).
Proof.
  unfold yolo_detect_objects. intros H.
  destruct (run_model m image_bytes) as [boxes|e]; [|done].
  destruct (count_boxes _ _ _ _) as [[d c]|e] eqn:Hloop; [|done].
  destruct (draw_boxes m image_bytes) as [a|e]; [|done].
  injection H as -> -> ->. exists boxes.
  destruct (count_boxes_result _ _ _ _ _ Hloop) as (? & ? & ? & ? & _).
  done.
Qed.

(** X11. The count that [detect_objects] returns for a class is the number
    of boxes that pass the area test and translate to that class; it is at
    least 1. *)
Theorem detect_objects_counts image_bytes boxes detected counts annotated c n :
  run_model m image_bytes = Returned boxes ->
  yolo_detect_objects m translations image_bytes
  = Returned (detected, counts, annotated) ->
  counts !! c = Some n ->
  (1 <= n)%Z
  /\ n = Z.of_nat (length (filter (counts_for (model_names m) translations c)
                             (default [] boxes))).
Proof.
  unfold yolo_detect_objects. intros -> H Hc.
  destruct (count_boxes _ _ _ _) as [[d k]|e] eqn:Hloop; [|done].
  destruct (draw_boxes m image_bytes) as [a|e]; [|done].
  injection H as -> -> ->.
  destruct (count_boxes_result _ _ _ _ _ Hloop) as (_ & _ & _ & _ & Hn).
  by apply Hn.
Qed.

Implicit Types (class_masks : gmap str (list bytes)) (s : segment).

Lemma masks_of_cons names c s segments :
  masks_of names translations c (s :: segments) =
  (if decide (translate translations <$> names !! segment_class s = Some c)
   then [segment_mask s] else [])
  ++ masks_of names translations c segments.
Proof.
  unfold masks_of. rewrite filter_cons. by case_decide.
Qed.

(** The grouping loop appends to each selected class its masks, in order. *)
Lemma group_masks_lookup names selected segments class_masks class_masks' c :
  group_masks names translations selected segments class_masks
  = Returned class_masks' ->
  class_masks' !! c =
  if decide (c ∈ selected /\ masks_of names translations c segments <> [])
  then Some (default [] (class_masks !! c) ++ masks_of names translations c segments)
  else class_masks !! c.
Proof.
  revert class_masks. induction segments as [|s segments IH];
    intros class_masks Hloop; simpl in Hloop.
  { injection Hloop as <-. rewrite decide_False; [done|]. by intros [_ ?]. }
  destruct (group_mask names translations selected class_masks s)
    as [cm1|e] eqn:Hstep; [|done].
  rewrite (IH _ Hloop), masks_of_cons. clear IH Hloop.
  unfold group_mask in Hstep.
  destruct (names !! segment_class s) as [class_name|]; [|done]. simpl.
  set (r := translate translations class_name) in *.
  destruct (decide (Some r = Some c)) as [[= ->]|Hne].
  - case_bool_decide as Hsel; injection Hstep as <-.
    + rewrite lookup_insert_eq. simpl.
      rewrite (decide_True
                 (P := c ∈ selected
                       /\ segment_mask s :: masks_of names translations c segments <> []))
        by done.
      case_decide as Hrest.
      * by rewrite <- app_assoc.
      * assert (masks_of names translations c segments = []) as ->.
        { destruct (masks_of names translations c segments); [done|].
          destruct Hrest. by split. }
        done.
    + rewrite !decide_False by naive_solver. done.
  - assert (cm1 !! c = class_masks !! c) as ->.
    { case_bool_decide; injection Hstep as <-; [|done].
      rewrite lookup_insert_ne; [done|]. congruence. }
    simpl. done.
Qed.

(** X12. A mask image that [segment_objects] returns for a class belongs to
    a selected class, and is the image made of the masks of the boxes that
    translate to that class, in the order of the boxes; there is at least
    one such box. *)
Theorem segment_objects_image image_bytes selected c png :
  yolo_segment_objects m translations image_bytes selected !! c = Some png ->
  c ∈ selected
  /\ exists segments,
       run_seg_model m image_bytes = Returned (Some segments)
       /\ masks_of (seg_model_names m) translations c segments <> []
       /\ create_segmentation_image m image_bytes c
            (masks_of (seg_model_names m) translations c segments)
          = Returned (Some png).
Proof.
  unfold yolo_segment_objects.
  destruct (run_seg_model m image_bytes) as [[segments|]|e];
    [|by rewrite lookup_empty..].
  destruct (group_masks _ _ _ _ _) as [class_masks|e] eqn:Hgroup;
    [|by rewrite lookup_empty].
  unfold render_masks. case_decide as Hall; [|by rewrite lookup_empty].
  rewrite lookup_omap, map_lookup_imap.
  rewrite (group_masks_lookup _ _ _ _ _ c Hgroup), lookup_empty. simpl.
  case_decide as Hc; [|done]. destruct Hc as [Hsel Hmasks]. simpl.
  destruct (create_segmentation_image m image_bytes c _) as [[image|]|e] eqn:Himg;
    simpl; [|done..].
  intros [= ->]. split; [done|]. by exists segments.
Qed.

End DetectorFacts.

(** ** The handlers, one event at a time *)

Section Events.

Context {runtime : Unicode} {bot : Bot}.

Implicit Types (sessions : gmap Z session) (s : session)
  (log : list (message * bool)).

Lemma reply_run {St} msg (st : St) log :
  reply msg st log =
  Run (if delivered (length log) then Returned tt else Raised TelegramError)
    st (log ++ [(msg, delivered (length log))]).
Proof. unfold reply. by destruct (delivered _). Qed.

Lemma start_command_run user_id sessions log :
  start_command user_id sessions log =
  reply (Config START_MESSAGE)
    (<[user_id := Session waiting_photo None None None None None]> sessions) log.
Proof. done. Qed.

Lemma english_classes_run {St} d classes (st : St) log :
  detector = Some d ->
  english_classes classes st log = Run (Returned (shown (class_translations d) classes)) st log.
Proof.
  intros Hd. unfold english_classes, detector_translations. rewrite Hd.
  by destruct classes.
Qed.

Lemma frame_photo_results detected counts annotated :
  frame (photo_results detected counts annotated).
Proof.
  apply frame_bind; [apply frame_reply|]. intros _.
  apply frame_bind; [apply frame_english_classes|]. intros ?. apply frame_reply.
Qed.

Lemma handle_photo_run d user_id image c names counts annotated sessions log :
  detector = Some d ->
  detect_objects d image = Returned (c :: names, counts, annotated) ->
  delivered (length log) = true ->
  handle_photo user_id (Returned image) sessions log
  = try_except (photo_results (c :: names) counts annotated)
      (fun _ => reply (Config ERROR_PROCESSING))
      (<[user_id := Session waiting_class_selection (Some image) (Some (c :: names))
                      (Some counts) (Some annotated) None]> sessions)
      (log ++ [(Config PHOTO_RECEIVED, true)]).
Proof.
  intros Hd Hdet Hack. unfold handle_photo. rewrite Hd.
  unfold try_except. rewrite bind_run, reply_run, Hack. simpl.
  rewrite bind_run. simpl. rewrite bind_run, Hdet. simpl.
  by rewrite bind_run.
Qed.

Lemma handle_photo_stored d user_id image c names counts annotated sessions log :
  detector = Some d ->
  detect_objects d image = Returned (c :: names, counts, annotated) ->
  delivered (length log) = true ->
  final (handle_photo user_id (Returned image) sessions log)
  = <[user_id := Session waiting_class_selection (Some image) (Some (c :: names))
                   (Some counts) (Some annotated) None]> sessions.
Proof.
  intros Hd Hdet Hack. rewrite (handle_photo_run d user_id image c names counts annotated sessions log Hd Hdet Hack).
  apply frame_try_except; [apply frame_photo_results | intros _; apply frame_reply].
Qed.

(** What [handle_photo] leaves in [user_sessions]: nothing new, or the
    session of a detection with at least one class. *)
Lemma handle_photo_final user_id photo sessions log :
  final (handle_photo user_id photo sessions log) = sessions
  \/ exists d image names counts annotated,
       detector = Some d
       /\ photo = Returned image
       /\ detect_objects d image = Returned (names, counts, annotated)
       /\ names <> []
       /\ final (handle_photo user_id photo sessions log)
          = <[user_id := Session waiting_class_selection (Some image) (Some names)
                           (Some counts) (Some annotated) None]> sessions.
Proof.
  destruct detector as [d|] eqn:Hd.
  2:{ left. unfold handle_photo. rewrite Hd. apply frame_reply. }
  destruct (delivered (length log)) eqn:Hack.
  2:{ left. unfold handle_photo. rewrite Hd.
      unfold try_except. rewrite bind_run, reply_run, Hack. simpl. apply frame_reply. }
  destruct photo as [image|e].
  2:{ left. unfold handle_photo. rewrite Hd.
      unfold try_except. rewrite bind_run, reply_run, Hack. simpl.
      rewrite ?bind_run. simpl. apply frame_reply. }
  destruct (detect_objects d image) as [[[[|c names] counts] annotated]|e] eqn:Hdet.
  - left. unfold handle_photo. rewrite Hd.
    unfold try_except. rewrite bind_run, reply_run, Hack. simpl.
    rewrite ?bind_run. simpl. rewrite ?bind_run, Hdet. simpl.
    rewrite reply_run. destruct (delivered (length (_ ++ _))); simpl; [done | apply frame_reply].
  - right. exists d, image, (c :: names), counts, annotated.
    split_and!; try done. by apply (handle_photo_stored d).
  - left. unfold handle_photo. rewrite Hd.
    unfold try_except. rewrite bind_run, reply_run, Hack. simpl.
    rewrite ?bind_run. simpl. rewrite ?bind_run, Hdet. simpl. apply frame_reply.
Qed.

(** What a handler leaves in [user_sessions]: what was there, or that with
    the session of the user of the event replaced. *)
Lemma handle_final e sessions log :
  final (handle e sessions log) = sessions
  \/ exists s', final (handle e sessions log) = <[user_of e := s']> sessions
                /\ match e with
                   | Help _ | Text _ _ => is_Some (sessions !! user_of e)
                   | _ => True
                   end.
Proof.
  destruct e as [u | u | u photo | u text]; simpl.
  - right. eexists. rewrite start_command_run, frame_reply. done.
  - left. apply frame_reply.
  - destruct (handle_photo_final u photo sessions log)
      as [-> | (d & image & names & counts & annotated & _ & _ & _ & _ & ->)];
      [by left | right; by eexists].
  - unfold handle_text. rewrite bind_run. simpl.
    destruct (sessions !! u) as [s|] eqn:Hs; [|left; apply frame_reply].
    destruct (state s); [left; apply frame_reply | | left; apply frame_reply].
    right. unfold handle_class_selection, on_session. rewrite Hs. simpl.
    eexists. split; [done | by eexists].
Qed.

Lemma dispatch_final e sessions log :
  final (dispatch e sessions log) = final (handle e sessions log).
Proof.
  unfold dispatch, try_except. destruct (result _); [done|].
  unfold handle_error. by rewrite frame_reply.
Qed.

(** X13. An update changes no session but that of its user, deletes no
    session, and creates none unless it is a start or a photo. *)
Theorem dispatch_isolation e sessions log :
  (forall other, other <> user_of e ->
                 final (dispatch e sessions log) !! other = sessions !! other)
  /\ (forall user_id, is_Some (sessions !! user_id) ->
                      is_Some (final (dispatch e sessions log) !! user_id))
  /\ match e with
     | Help _ | Text _ _ =>
         forall user_id, is_Some (final (dispatch e sessions log) !! user_id)
                         -> is_Some (sessions !! user_id)
     | _ => True
     end.
Proof.
  rewrite dispatch_final.
  destruct (handle_final e sessions log) as [-> | (s' & -> & He)].
  { split_and!; try done. by destruct e. }
  split_and!.
  - intros other Hne. by rewrite lookup_insert_ne.
  - intros u Hu. rewrite lookup_insert_is_Some.
    destruct (decide (user_of e = u)); auto.
  - destruct e; try done; intros u; rewrite lookup_insert_is_Some;
      intros [<- | [_ ?]]; done.
Qed.

(** X14. A start replaces the session of the user by a fresh one in
    [waiting_photo], whatever it was and whatever becomes of the welcome;
    a text sent next is answered with the request for a photo and changes
    nothing. *)
Theorem start_then_text user_id sessions log text log' :
  let fresh := Session waiting_photo None None None None None in
  let started := final (start_command user_id sessions log) in
  started = <[user_id := fresh]> sessions
  /\ sent (start_command user_id sessions log)
     = log ++ [(Config START_MESSAGE, delivered (length log))]
  /\ final (handle_text user_id text started log') = started
  /\ sent (handle_text user_id text started log')
     = log' ++ [(Config ERROR_NO_PHOTO, delivered (length log'))].
Proof.
  intros fresh started. subst started.
  rewrite start_command_run, reply_run. simpl. split_and!; try done.
  - unfold handle_text. rewrite bind_run. simpl. rewrite lookup_insert_eq. simpl.
    apply frame_reply.
  - unfold handle_text. rewrite bind_run. simpl. rewrite lookup_insert_eq. simpl.
    by rewrite reply_run.
Qed.

Lemma handle_photo_delivered d user_id image c names counts annotated sessions log :
  detector = Some d ->
  detect_objects d image = Returned (c :: names, counts, annotated) ->
  delivered (length log) = true ->
  delivered (S (length log)) = true ->
  delivered (S (S (length log))) = true ->
  let english := shown (class_translations d) (c :: names) in
  handle_photo user_id (Returned image) sessions log
  = Run (Returned tt)
      (<[user_id := Session waiting_class_selection (Some image) (Some (c :: names))
                      (Some counts) (Some annotated) None]> sessions)
      (log ++ [(Config PHOTO_RECEIVED, true);
               (AnnotatedPhoto annotated, true);
               (DetectionComplete
                  (map (fun cls => (cls, count_of counts cls)) (c :: names))
                  (take 5 english) (bool_decide (5 < length english)), true)]).
Proof.
  intros Hd Hdet Hack H1 H2 english.
  rewrite (handle_photo_run d user_id image c names counts annotated sessions log
             Hd Hdet Hack).
  unfold try_except, photo_results.
  rewrite bind_run, reply_run, length_app, Nat.add_1_r, H1. cbn [result final sent].
  rewrite bind_run, (english_classes_run d) by done. cbn [result final sent].
  rewrite reply_run, !length_app. cbn [length].
  replace (length log + 1 + 1) with (S (S (length log))) by lia.
  rewrite H2. cbn [result final sent]. by rewrite <- !app_assoc.
Qed.

(** X15. When the acknowledgement is delivered and the detector finds at
    least one class, the session of the user is replaced by one in
    [waiting_class_selection] that holds the photo, the classes, the counts
    and the annotated image and no selection, before any result is sent and
    so whatever becomes of the later replies; when these are delivered they
    are the annotated photo and the list of the classes with their counts,
    with the first five names as the example. *)
Theorem handle_photo_detected d user_id image c names counts annotated sessions log :
  detector = Some d ->
  detect_objects d image = Returned (c :: names, counts, annotated) ->
  delivered (length log) = true ->
  let r := handle_photo user_id (Returned image) sessions log in
  final r
  = <[user_id := Session waiting_class_selection (Some image) (Some (c :: names))
                   (Some counts) (Some annotated) None]> sessions
  /\ (delivered (S (length log)) = true ->
      delivered (S (S (length log))) = true ->
      let english := shown (class_translations d) (c :: names) in
      result r = Returned tt
      /\ sent r
         = log ++ [(Config PHOTO_RECEIVED, true);
                   (AnnotatedPhoto annotated, true);
                   (DetectionComplete
                      (map (fun cls => (cls, count_of counts cls)) (c :: names))
                      (take 5 english) (bool_decide (5 < length english)), true)]).
Proof.
  intros Hd Hdet Hack r. split; [by apply (handle_photo_stored d)|].
  intros H1 H2 english. subst r.
  by rewrite (handle_photo_delivered d user_id image c names counts annotated
                sessions log Hd Hdet Hack H1 H2).
Qed.

(** X16. A photo that cannot be used changes no session: without a detector
    the one reply says so; with one, when the download or the detection
    raises, or the acknowledgement is not delivered, the replies attempted
    are the acknowledgement and the processing error. *)
Theorem handle_photo_failure user_id photo sessions log :
  (detector = None ->
   final (handle_photo user_id photo sessions log) = sessions
   /\ sent (handle_photo user_id photo sessions log)
      = log ++ [(DetectorUnavailable, delivered (length log))])
  /\ (forall d,
        detector = Some d ->
        delivered (length log) = false
        \/ (exists e, photo = Raised e)
        \/ (exists image e, photo = Returned image /\ detect_objects d image = Raised e) ->
        final (handle_photo user_id photo sessions log) = sessions
        /\ sent (handle_photo user_id photo sessions log)
           = log ++ [(Config PHOTO_RECEIVED, delivered (length log));
                     (Config ERROR_PROCESSING, delivered (S (length log)))]).
Proof.
  split.
  - intros Hd. unfold handle_photo. rewrite Hd, reply_run. done.
  - intros d Hd Hfail. unfold handle_photo. rewrite Hd.
    unfold try_except. rewrite bind_run, reply_run. simpl.
    assert (forall b, length (log ++ [(Config PHOTO_RECEIVED, b)]) = S (length log))
      as Hlen by (intros b; rewrite length_app; simpl; lia).
    destruct (delivered (length log)) eqn:Hack; simpl.
    2:{ rewrite reply_run, Hlen. simpl. by rewrite <- app_assoc. }
    destruct Hfail as [? | [[e ->] | (image & e & -> & Hdet)]]; [done | |].
    + rewrite bind_run. simpl. rewrite reply_run, Hlen. simpl. by rewrite <- app_assoc.
    + rewrite bind_run. simpl. rewrite bind_run, Hdet. simpl.
      rewrite reply_run, Hlen. simpl. by rewrite <- app_assoc.
Qed.

(** X17. A text outside the class selection changes no session and is
    answered by one message: the request to start when the user has no
    session, the request for a photo in [waiting_photo], the request for a
    new photo in [processing_segmentation]. *)
Theorem handle_text_idle user_id text sessions log :
  let r := handle_text user_id text sessions log in
  (sessions !! user_id = None ->
   final r = sessions /\ sent r = log ++ [(NeedStart, delivered (length log))])
  /\ (forall s, sessions !! user_id = Some s ->
       (state s = waiting_photo ->
        final r = sessions
        /\ sent r = log ++ [(Config ERROR_NO_PHOTO, delivered (length log))])
       /\ (state s = processing_segmentation ->
           final r = sessions
           /\ sent r = log ++ [(SendNewPhoto, delivered (length log))])).
Proof.
  intros r. subst r. unfold handle_text. rewrite bind_run. simpl. split.
  - intros ->. by rewrite reply_run.
  - intros s ->. split; intros ->; by rewrite reply_run.
Qed.

End Events.

(** ** Class selection and segmentation *)

Section Selection.

Context {runtime : Unicode} {bot : Bot}.

Implicit Types (sessions : gmap Z session) (s : session)
  (log : list (message * bool)).

Lemma send_masks_run results selected s log :
  (forall n, length log <= n -> delivered n = true) ->
  send_masks results selected s log
  = Run (Returned (successful_of results selected, failed_of results selected)) s
      (log ++ mask_photos results selected).
Proof.
  revert log. induction selected as [|c rest IH]; intros log Hall.
  { simpl. by rewrite app_nil_r. }
  unfold successful_of, failed_of, mask_photos in *. cbn [send_masks omap list_omap].
  destruct (results !! c) as [photo|] eqn:Hc.
  - rewrite bind_run, reply_run, (Hall (length log)) by lia. cbn [result final sent].
    rewrite bind_run, IH.
    2:{ intros n Hn. apply Hall. rewrite length_app in Hn. lia. }
    cbn [result final sent fst snd fmap option_fmap option_map].
    rewrite filter_cons_True by (by rewrite Hc).
    rewrite filter_cons_False by (rewrite Hc; intros H; by apply H).
    unfold mret, M_ret, ret. by rewrite <- app_assoc.
  - rewrite bind_run, IH by done.
    cbn [result final sent fst snd fmap option_fmap option_map].
    rewrite filter_cons_False by (rewrite Hc; by intros [? ?]).
    rewrite filter_cons_True by (rewrite Hc; by intros [? ?]).
    done.
Qed.

Lemma send_final_summary_run d successful failed counts s log :
  detector = Some d ->
  send_final_summary successful failed counts s log
  = reply (Summary (summary_of (class_translations d) successful failed counts)) s log.
Proof.
  intros Hd. unfold send_final_summary, summary_of, detector_translations.
  rewrite Hd, bind_run. by destruct failed.
Qed.

Lemma perform_segmentation_run d selected image counts results s log :
  detector = Some d ->
  selected_classes s = Some selected ->
  image_bytes s = Some image ->
  class_counts s = Some counts ->
  segment_objects d image selected = Returned results ->
  (forall n, length log <= n -> delivered n = true) ->
  perform_segmentation s log
  = Run (Returned tt) (set_state waiting_photo s)
      (log ++ mask_photos results selected
           ++ [(Summary (summary_of (class_translations d)
                           (successful_of results selected)
                           (failed_of results selected) counts), true)]).
Proof.
  intros Hd Hsel Himg Hcounts Hseg Hall.
  assert (segmentation_try s log
          = Run (Returned tt) (set_state waiting_photo s)
              (log ++ mask_photos results selected
                   ++ [(Summary (summary_of (class_translations d)
                                   (successful_of results selected)
                                   (failed_of results selected) counts), true)]))
    as Htry.
  { unfold segmentation_try. rewrite Hd.
    rewrite bind_run. cbn [get result final sent]. rewrite Hsel.
    rewrite bind_run. cbn [item ret result final sent]. rewrite Himg.
    rewrite bind_run. cbn [item ret result final sent]. rewrite Hcounts.
    rewrite bind_run. cbn [item ret result final sent]. rewrite Hseg.
    rewrite bind_run. cbn [lift ret result final sent].
    rewrite bind_run, send_masks_run by done. cbn [result final sent fst snd].
    rewrite bind_run, (send_final_summary_run d) by done.
    rewrite reply_run, Hall by (rewrite length_app; lia).
    cbn [result final sent modify]. by rewrite <- app_assoc. }
  unfold perform_segmentation, try_except. by rewrite Htry.
Qed.

Lemma perform_segmentation_result s log :
  result (perform_segmentation s log) = Returned tt
  \/ result (perform_segmentation s log) = Raised TelegramError.
Proof.
  unfold perform_segmentation, try_except.
  destruct (result (segmentation_try s log)) as [[]|e] eqn:Hr; [by left|].
  rewrite reply_result. destruct (delivered _); auto.
Qed.

(** X18. A segmentation that goes through: for a session with its selection,
    photo and counts, when the detector returns and every reply is delivered,
    the replies are one mask photo for each selected class that has an image,
    in the order of the selection, then one summary; every selected class is
    in exactly one of the two lists of the summary; and the state is
    [waiting_photo], with the rest of the session as it was. *)
Theorem perform_segmentation_delivers d selected image counts results s log :
  detector = Some d ->
  selected_classes s = Some selected ->
  image_bytes s = Some image ->
  class_counts s = Some counts ->
  segment_objects d image selected = Returned results ->
  (forall n, length log <= n -> delivered n = true) ->
  let r := perform_segmentation s log in
  let successful := successful_of results selected in
  let failed := failed_of results selected in
  result r = Returned tt
  /\ final r = set_state waiting_photo s
  /\ sent r = log ++ mask_photos results selected
                  ++ [(Summary (summary_of (class_translations d)
                                  successful failed counts), true)]
  /\ successful ++ failed ≡ₚ selected
  /\ length (mask_photos results selected) = length successful.
Proof.
  intros Hd Hsel Himg Hcounts Hseg Hall r successful failed. subst r.
  rewrite (perform_segmentation_run d selected image counts results) by done.
  split_and!; try done.
  - apply filter_app_complement.
  - subst successful. unfold mask_photos, successful_of.
    clear. induction selected as [|c rest IH]; [done|]. simpl.
    destruct (results !! c) eqn:Hc; simpl.
    + rewrite filter_cons_True by (by rewrite Hc). simpl. f_equal. exact IH.
    + rewrite filter_cons_False by (rewrite Hc; by intros [? ?]). done.
Qed.

End Selection.

(** ** A text in [waiting_class_selection] *)

Section Dialogue.

Context {runtime : Unicode} {bot : Bot}.

Implicit Types (sessions : gmap Z session) (s : session)
  (log : list (message * bool)).

Lemma class_selection_run d names counts text s log :
  detector = Some d ->
  detected_classes s = Some names ->
  class_counts s = Some counts ->
  class_selection text s log =
  match parse_user_classes text with
  | [] => reply NotRecognised s log
  | _ :: _ =>
      let r := match_user_classes_to_detected (class_translations d)
                 (parse_user_classes text) names in
      let report := SelectionReport (selection_report (class_translations d) names r) in
      match valid_classes r with
      | [] => reply report s log
      | _ :: _ => (reply report;; segment_selected (valid_classes r)) s log
      end
  end.
Proof.
  intros Hd Hnames Hcounts. unfold class_selection.
  rewrite bind_run. cbn [get result final sent]. rewrite Hnames.
  rewrite bind_run. cbn [item ret result final sent]. rewrite Hcounts.
  rewrite bind_run. cbn [item ret result final sent].
  destruct (parse_user_classes text) as [|tok toks] eqn:Hparse; [done|].
  unfold match_in_bot. rewrite Hd. rewrite bind_run. cbn [ret mret M_ret result final sent].
  set (r := match_user_classes_to_detected _ _ _).
  unfold selection_report.
  destruct (invalid_classes r) as [|i invalid] eqn:Hinv.
  - rewrite bind_run. cbn [ret mret M_ret result final sent].
    by destruct (valid_classes r).
  - rewrite bind_run, bind_run, (english_classes_run d) by done.
    cbn [ret mret M_ret result final sent].
    by destruct (valid_classes r).
Qed.

Lemma segment_selected_run valid s log :
  segment_selected valid s log
  = (reply (Config SEGMENTATION_START);; perform_segmentation)
      (set_state processing_segmentation (set_selected_classes valid s)) log.
Proof. done. Qed.

Lemma segment_selected_outcome valid s log :
  (result (segment_selected valid s log) = Returned tt
   \/ result (segment_selected valid s log) = Raised TelegramError)
  /\ exists st,
       (st = processing_segmentation \/ st = waiting_photo)
       /\ final (segment_selected valid s log)
          = set_state st (set_selected_classes valid s).
Proof.
  rewrite segment_selected_run, bind_run, reply_run. cbn [result final sent].
  destruct (delivered (length log)).
  - split; [apply perform_segmentation_result|].
    destruct (perform_segmentation_final
                (set_state processing_segmentation (set_selected_classes valid s))
                (log ++ [(Config SEGMENTATION_START, true)])) as [-> | ->].
    + exists processing_segmentation. by split; [left|].
    + exists waiting_photo. by split; [right|].
  - split; [by right|]. exists processing_segmentation. by split; [left|].
Qed.

(** What a class selection can end with, and what it leaves in the session. *)
Lemma class_selection_outcome d names counts text s log :
  detector = Some d ->
  detected_classes s = Some names ->
  class_counts s = Some counts ->
  let r := class_selection text s log in
  let valid := valid_classes
                 (match_user_classes_to_detected (class_translations d)
                    (parse_user_classes text) names) in
  (result r = Returned tt \/ result r = Raised TelegramError)
  /\ (final r = s
      \/ valid <> []
         /\ exists st,
              (st = processing_segmentation \/ st = waiting_photo)
              /\ final r = set_state st (set_selected_classes valid s)).
Proof.
  intros Hd Hnames Hcounts r valid. subst r valid.
  rewrite (class_selection_run d names counts) by done.
  assert (forall msg,
            (result (reply (St := session) msg s log) = Returned tt
             \/ result (reply (St := session) msg s log) = Raised TelegramError)
            /\ final (reply msg s log) = s) as Hreply.
  { intros msg. rewrite reply_run. cbn [result final]. destruct (delivered _); auto. }
  destruct (parse_user_classes text) as [|tok toks].
  { destruct (Hreply NotRecognised) as [? ?]. auto. }
  cbv zeta.
  destruct (valid_classes _) as [|c valid] eqn:Hvalid.
  { edestruct Hreply as [? ?]. eauto. }
  rewrite bind_run, reply_run. cbn [result final sent].
  destruct (delivered (length log)).
  - destruct (segment_selected_outcome (c :: valid) s
                (log ++ [(SelectionReport
                            (selection_report (class_translations d) names
                               (match_user_classes_to_detected (class_translations d)
                                  (tok :: toks) names)), true)]))
      as [Hres (st & Hst & Hfinal)].
    split; [done|]. right. split; [done|]. by exists st.
  - split; [by right | by left].
Qed.

Lemma session_ok_selected s names valid st :
  session_ok s ->
  state s = waiting_class_selection ->
  detected_classes s = Some names ->
  valid <> [] ->
  NoDup valid ->
  (forall c, c ∈ valid -> c ∈ names) ->
  session_ok (set_state st (set_selected_classes valid s)).
Proof.
  unfold session_ok. intros Hok Hstate Hnames Hne Hdup Hsub.
  rewrite Hstate in Hok. destruct Hok as [Hd Hphoto].
  assert (with_photo (set_state st (set_selected_classes valid s))) as Hphoto'.
  { destruct Hphoto as (image & names' & counts & annotated & ? & ? & ? & ? & ?).
    by exists image, names', counts, annotated. }
  destruct st; simpl; [done | done |].
  split_and!; try done. by exists valid, names.
Qed.

Lemma sessions_ok_insert user_id s sessions :
  sessions_ok sessions -> session_ok s -> sessions_ok (<[user_id := s]> sessions).
Proof.
  intros Hok Hs u s'. destruct (decide (user_id = u)) as [->|Hne].
  - rewrite lookup_insert_eq. by intros [= <-].
  - rewrite lookup_insert_ne by done. apply Hok.
Qed.

Lemma try_reply_result {St} (m : M St unit) msg (st : St) log :
  result (try_except m (fun _ => reply msg) st log) = Returned tt
  \/ result (try_except m (fun _ => reply msg) st log) = Raised TelegramError.
Proof.
  unfold try_except. destruct (result (m st log)) as [[]|e] eqn:Hr; [by left|].
  rewrite reply_result. destruct (delivered _); auto.
Qed.

Lemma reply_outcome {St} msg (st : St) log :
  result (reply msg st log) = Returned tt
  \/ result (reply msg st log) = Raised TelegramError.
Proof. rewrite reply_result. destruct (delivered _); auto. Qed.

(** A handler on sessions that are as their states say: it leaves such
    sessions, and raises nothing but what a reply raises. *)
Lemma handle_ok e sessions log :
  sessions_ok sessions ->
  sessions_ok (final (handle e sessions log))
  /\ (result (handle e sessions log) = Returned tt
      \/ result (handle e sessions log) = Raised TelegramError).
Proof.
  intros Hok. destruct e as [u | u | u photo | u text]; cbn [handle].
  - rewrite start_command_run. split; [|apply reply_outcome].
    rewrite frame_reply. by apply sessions_ok_insert.
  - unfold help_command. split; [|apply reply_outcome]. by rewrite frame_reply.
  - split.
    + destruct (handle_photo_final u photo sessions log)
        as [-> | (d & image & names & counts & annotated & Hd & _ & _ & Hne & ->)];
        [done|].
      apply sessions_ok_insert; [done|]. unfold session_ok. cbn [state].
      split; [by rewrite Hd|]. by exists image, names, counts, annotated.
    + unfold handle_photo. destruct detector; [apply try_reply_result | apply reply_outcome].
  - unfold handle_text. rewrite bind_run. cbn [get result final sent].
    destruct (sessions !! u) as [s|] eqn:Hs.
    2:{ split; [|apply reply_outcome]. by rewrite frame_reply. }
    destruct (state s) eqn:Hstate.
    1,3: (split; [|apply reply_outcome]; by rewrite frame_reply).
    pose proof (Hok u s Hs) as Hsession. unfold session_ok in Hsession.
    rewrite Hstate in Hsession.
    destruct Hsession as [[d Hd] (image & names & counts & annotated
                                   & Himg & Hnames & Hne & Hcounts & Hann)].
    unfold handle_class_selection, on_session. rewrite Hs. cbn [result final sent].
    destruct (class_selection_outcome d names counts (py_lower (strip text)) s log
                Hd Hnames Hcounts) as [Hres Hfinal].
    split; [|done]. apply sessions_ok_insert; [done|].
    destruct Hfinal as [-> | (Hvalid & st & _ & ->)]; [by apply (Hok u)|].
    destruct (match_valid_classes (class_translations d) names
                (parse_user_classes (py_lower (strip text)))) as [Hdup Hsub].
    apply (session_ok_selected s names); try done. by apply (Hok u).
Qed.

Lemma run_events_snoc events e sessions log :
  run_events (events ++ [e]) sessions log
  = let st := run_events events sessions log in
    (final (dispatch e st.1 st.2), sent (dispatch e st.1 st.2)).
Proof. unfold run_events. by rewrite foldl_app. Qed.

Lemma run_events_ok events sessions log :
  sessions_ok sessions -> sessions_ok (run_events events sessions log).1.
Proof.
  intros Hok. induction events as [|e events IH] using rev_ind; [done|].
  rewrite run_events_snoc. cbn [fst]. rewrite dispatch_final.
  by apply handle_ok.
Qed.

Lemma sessions_ok_empty : sessions_ok ∅.
Proof. intros u s. by rewrite lookup_empty. Qed.

(** X19. Whatever updates arrive, the sessions are as their states say: a
    session in [waiting_class_selection] has the photo, a non-empty list of
    detected classes, the counts and the annotated image, and there is a
    detector; one in [processing_segmentation] has, besides, a non-empty
    selection without duplicates taken from the detected classes. So
    without a detector every session is in [waiting_photo]. *)
Theorem run_events_sessions_ok events log :
  let sessions := (run_events events ∅ log).1 in
  sessions_ok sessions
  /\ (detector = None ->
      forall user_id s, sessions !! user_id = Some s -> state s = waiting_photo).
Proof.
  intros sessions.
  assert (sessions_ok sessions) as Hok by apply run_events_ok, sessions_ok_empty.
  split; [done|]. intros Hd u s Hs. specialize (Hok u s Hs).
  unfold session_ok in Hok. destruct (state s); [done | |].
  - destruct Hok as [[d Hd'] _]. congruence.
  - destruct Hok as [[d Hd'] _]. congruence.
Qed.

(** X20. Whatever updates arrived before, a handler raises nothing but what
    a reply raises: no key of a session is read that the session does not
    have, and the detector is not used when there is none. *)
Theorem handle_raises_only_telegram events log e :
  let st := run_events events ∅ log in
  result (handle e st.1 st.2) = Returned tt
  \/ result (handle e st.1 st.2) = Raised TelegramError.
Proof.
  intros st. apply handle_ok, run_events_ok, sessions_ok_empty.
Qed.

Lemma handle_text_selection user_id text s sessions log :
  sessions !! user_id = Some s ->
  state s = waiting_class_selection ->
  handle_text user_id text sessions log
  = let r := class_selection (py_lower (strip text)) s log in
    Run (result r) (<[user_id := final r]> sessions) (sent r).
Proof.
  intros Hs Hstate. unfold handle_text. rewrite bind_run. cbn [get result final sent].
  rewrite Hs, Hstate. unfold handle_class_selection, on_session. by rewrite Hs.
Qed.

(** X21. A selection that selects nothing can be repeated: in
    [waiting_class_selection], a text without a token is answered by the
    request to name classes, and a text none of whose tokens is resolved by
    the list of all its tokens as not found with the classes that are
    available; in both cases no session changes. *)
Theorem handle_text_retry d user_id text names counts s sessions log :
  detector = Some d ->
  sessions !! user_id = Some s ->
  state s = waiting_class_selection ->
  detected_classes s = Some names ->
  class_counts s = Some counts ->
  let toks := parse_user_classes (py_lower (strip text)) in
  let r := handle_text user_id text sessions log in
  (toks = [] ->
   final r = sessions
   /\ sent r = log ++ [(NotRecognised, delivered (length log))])
  /\ (toks <> [] ->
      valid_classes (match_user_classes_to_detected (class_translations d) toks names)
      = [] ->
      final r = sessions
      /\ sent r
         = log ++ [(SelectionReport
                      [NotFound toks; Available (shown (class_translations d) names)],
                    delivered (length log))]).
Proof.
  intros Hd Hs Hstate Hnames Hcounts toks r. subst toks r.
  rewrite (handle_text_selection user_id text s) by done. cbv zeta.
  rewrite (class_selection_run d names counts) by done.
  split.
  - intros ->. rewrite reply_run. cbn [final sent]. by rewrite insert_id.
  - intros Hne Hvalid.
    destruct (parse_user_classes (py_lower (strip text))) as [|tok toks] eqn:Hparse;
      [done|].
    cbv zeta. rewrite Hvalid. unfold selection_report.
    rewrite (nothing_resolved _ _ _ Hvalid). cbn [valid_classes invalid_classes app].
    rewrite reply_run. cbn [final sent]. by rewrite insert_id.
Qed.

(** X22. A selection that goes through: in [waiting_class_selection], when
    at least one class is resolved, the detector returns and every reply is
    delivered, the replies are the report, the notice that segmentation
    starts, a mask photo for each resolved class that has an image and the
    summary; the session gets the resolved classes as its selection and is
    back in [waiting_photo]; no other session changes. *)
Theorem handle_text_segments d user_id text names counts image results s sessions log :
  detector = Some d ->
  sessions !! user_id = Some s ->
  state s = waiting_class_selection ->
  detected_classes s = Some names ->
  class_counts s = Some counts ->
  image_bytes s = Some image ->
  let r := match_user_classes_to_detected (class_translations d)
             (parse_user_classes (py_lower (strip text))) names in
  valid_classes r <> [] ->
  segment_objects d image (valid_classes r) = Returned results ->
  (forall n, length log <= n -> delivered n = true) ->
  handle_text user_id text sessions log
  = Run (Returned tt)
      (<[user_id := set_state waiting_photo (set_selected_classes (valid_classes r) s)]>
         sessions)
      (log ++ [(SelectionReport (selection_report (class_translations d) names r), true);
               (Config SEGMENTATION_START, true)]
           ++ mask_photos results (valid_classes r)
           ++ [(Summary (summary_of (class_translations d)
                           (successful_of results (valid_classes r))
                           (failed_of results (valid_classes r)) counts), true)]).
Proof.
  intros Hd Hs Hstate Hnames Hcounts Himg r Hvalid Hseg Hall. subst r.
  rewrite (handle_text_selection user_id text s) by done. cbv zeta.
  rewrite (class_selection_run d names counts) by done.
  destruct (parse_user_classes (py_lower (strip text))) as [|tok toks] eqn:Hparse;
    [done|].
  cbv zeta.
  set (r := match_user_classes_to_detected _ _ _) in *.
  destruct (valid_classes r) as [|c valid] eqn:Hr; [done|].
  rewrite bind_run, reply_run, Hall by done. cbn [result final sent].
  rewrite segment_selected_run, bind_run, reply_run, Hall
    by (rewrite length_app; lia).
  cbn [result final sent].
  rewrite (perform_segmentation_run d (c :: valid) image counts results); try done.
  - cbn [result final sent]. f_equal. by rewrite <- !app_assoc.
  - intros n Hn. apply Hall. rewrite !length_app in Hn. lia.
Qed.

End Dialogue.

(** ** The bot with the detector of [detection.py] *)

Section Composition.

Context {runtime : Unicode} {bot : Bot}.

Variable m : Models.
Variable translations : list (str * str).

Hypothesis yolo : detector = Some (yolo_detector m translations).

Lemma successful_of_empty selected : successful_of ∅ selected = [].
Proof.
  unfold successful_of. induction selected as [|c rest IH]; [done|].
  rewrite filter_cons_False; [done|]. rewrite lookup_empty. by intros [? ?].
Qed.

Lemma failed_of_empty selected : failed_of ∅ selected = selected.
Proof.
  unfold failed_of. induction selected as [|c rest IH]; [done|].
  rewrite filter_cons_True, IH; [done|]. rewrite lookup_empty. by intros [? ?].
Qed.

Lemma mask_photos_empty selected : mask_photos ∅ selected = [].
Proof.
  unfold mask_photos. induction selected as [|c rest IH]; [done|].
  simpl. by rewrite lookup_empty.
Qed.

(** X23. With the detector of [detection.py], segmentation cannot fail for
    the bot: for a session with its selection, photo and counts and with
    every reply delivered, [perform_segmentation] returns and the state is
    [waiting_photo]; when the segmentation model raises or finds nothing,
    the one reply is the summary that lists every selected class as not
    segmented. *)
Theorem yolo_segmentation_completes selected image counts s log :
  selected_classes s = Some selected ->
  image_bytes s = Some image ->
  class_counts s = Some counts ->
  (forall n, length log <= n -> delivered n = true) ->
  let r := perform_segmentation s log in
  result r = Returned tt
  /\ final r = set_state waiting_photo s
  /\ ((forall segments, run_seg_model m image <> Returned (Some segments)) ->
      sent r = log ++ [(Summary (summary_of translations [] selected counts), true)]).
Proof.
  intros Hsel Himg Hcounts Hall r. subst r.
  rewrite (perform_segmentation_run (yolo_detector m translations) selected image counts
             (yolo_segment_objects m translations image selected)) by done.
  split_and!; try done. intros Hnone.
  assert (yolo_segment_objects m translations image selected = ∅) as ->.
  { unfold yolo_segment_objects.
    destruct (run_seg_model m image) as [[segments|]|e]; [|done..].
    by destruct (Hnone segments). }
  cbn [sent class_translations yolo_detector].
  by rewrite successful_of_empty, failed_of_empty, mask_photos_empty.
Qed.

(** X24. With the detector of [detection.py], the classes that the bot
    lists after a photo are distinct and each is listed with the count that
    the detector kept for it, which is at least one: the default of zero is
    never shown. *)
Theorem yolo_photo_counts user_id image c names counts annotated sessions log :
  yolo_detect_objects m translations image = Returned (c :: names, counts, annotated) ->
  (forall n, length log <= n -> delivered n = true) ->
  exists lines hint more,
    sent (handle_photo user_id (Returned image) sessions log)
    = log ++ [(Config PHOTO_RECEIVED, true);
              (AnnotatedPhoto annotated, true);
              (DetectionComplete lines hint more, true)]
    /\ lines.*1 = c :: names
    /\ NoDup lines.*1
    /\ Forall (fun line : str * Z =>
                 (1 <= line.2)%Z /\ counts !! line.1 = Some line.2) lines.
Proof.
  intros Hdet Hall.
  rewrite (handle_photo_delivered (yolo_detector m translations) user_id image c names
             counts annotated sessions log yolo Hdet)
    by (apply Hall; lia).
  cbn [sent]. do 3 eexists. split; [done|].
  assert (NoDup (c :: names)
          /\ forall cls, cls ∈ c :: names -> exists n, counts !! cls = Some n /\ (1 <= n)%Z)
    as [Hdup Hkeys].
  { revert Hdet. unfold yolo_detect_objects.
    destruct (run_model m image) as [boxes|e]; [|done].
    destruct (count_boxes _ _ _ _) as [[d k]|e] eqn:Hloop; [|done].
    destruct (draw_boxes m image) as [a|e]; [|done].
    intros [= -> -> ->].
    destruct (count_boxes_result _ _ _ _ _ Hloop) as (Hdup & Hkeys & _ & _ & Hn).
    split; [done|]. intros cls [n Hcls]%Hkeys. exists n. split; [done|].
    by apply (Hn cls n). }
  assert ((map (fun cls => (cls, count_of counts cls)) (c :: names)).*1 = c :: names)
    as Hfst.
  { generalize (c :: names). intros l. induction l as [|x l IH]; [done|].
    simpl. f_equal. exact IH. }
  split_and!; [done | by rewrite Hfst |].
  apply Forall_forall. intros [cls n] Hin.
  apply list_elem_of_fmap in Hin as (cls' & [= -> ->] & Hcls).
  destruct (Hkeys cls' Hcls) as (n & Hn & Hpos).
  unfold count_of. rewrite Hn. done.
Qed.

End Composition.

(** ** The further facts on concrete inputs *)

Section Instances.

#[local] Existing Instance basic_tables.

Local Abbreviation translations := YOLOObjectDetector.class_translations.

(** The detector of [detection.py] on the demonstration models. *)
Example yolo_detects_person_and_dog :
  yolo_detect_objects demo_models translations [Byte.x01]
  = Returned ([py "человек"; py "собака"],
              {[ py "человек" := 2%Z; py "собака" := 1%Z ]}, [Byte.x01]).
Proof. vm_compute. reflexivity. Qed.

Example yolo_segments_dog :
  yolo_segment_objects demo_models translations [Byte.x01] [py "собака"]
  = {[ py "собака" := [Byte.x02] ]}.
Proof. vm_compute. reflexivity. Qed.

(** The name shown for a class is the whole key of the dict. *)
Example english_name_dog : english_name translations (py "собака") = Some (py "dog").
Proof. vm_compute. reflexivity. Qed.

(** X2 on the text "Car, dog" and its token "car". *)
Lemma parse_user_classes_tokens_car :
  py "car" ∈ parse_user_classes (py "Car, dog")
  /\ 2 <= length (py "car")
  /\ Forall (fun c => separator c = false) (py "car")
  /\ substring (py "car") (sub_symbols (py_lower (py "Car, dog"))).
Proof.
  assert (py "car" ∈ parse_user_classes (py "Car, dog")) as H
    by (vm_compute; constructor).
  split; [exact H|]. exact (parse_user_classes_tokens (py "Car, dog") (py "car") H).
Defined.

(** X3 on "car,dog". *)
Lemma parse_user_classes_join_car_dog :
  separator 44%N = true
  /\ parse_user_classes (join 44%N [py "car"; py "dog"]) = [py "car"; py "dog"].
Proof.
  split; [reflexivity|].
  apply (parse_user_classes_join 44%N [py "car"; py "dog"]);
    [reflexivity | reflexivity |].
  vm_compute. repeat constructor.
Defined.

(** X4 on the tokens "car" and "cars" with "автомобиль" detected. *)
Lemma match_accounts_for_cars :
  py "cars" ∈ [py "car"; py "cars"]
  /\ (py "cars" ∈ invalid_classes
                    (match_user_classes_to_detected translations
                       [py "car"; py "cars"] [py "автомобиль"])
      \/ exists c,
           c ∈ valid_classes
                 (match_user_classes_to_detected translations
                    [py "car"; py "cars"] [py "автомобиль"])
           /\ (resolve translations (py "cars") [py "автомобиль"] = Exact c
               \/ resolve translations (py "cars") [py "автомобиль"] = Alternate c
               \/ resolve translations (py "cars") [py "автомобиль"] = Fuzzy c)).
Proof.
  assert (py "cars" ∈ [py "car"; py "cars"]) as H by (vm_compute; repeat constructor).
  split; [exact H|].
  exact (match_accounts_for_tokens translations [py "автомобиль"]
           [py "car"; py "cars"] (py "cars") H).
Defined.

(** X8 on the token "car": level 2 settles it through the name "car". *)
Lemma exact_levels_one_word_car :
  py "car" ∈ parse_user_classes (py "car")
  /\ exists eng, (eng, py "автомобиль") ∈ translations /\ py_lower eng = py "car".
Proof.
  assert (py "car" ∈ parse_user_classes (py "car")) as H by (vm_compute; constructor).
  split; [exact H|].
  destruct (exact_levels_one_word translations [py "автомобиль"] (py "car") (py "car") H)
    as [_ Halt].
  destruct (Halt (py "автомобиль")) as [_ (eng & Hin & Hlower & _)];
    [vm_compute; reflexivity|].
  exists eng. split; [exact Hin | exact Hlower].
Defined.

(** X9 on the name "dog", shown for "собака". *)
Lemma hint_selects_dog :
  english_name translations (py "собака") = Some (py "dog")
  /\ parse_user_classes (py "dog") = [py_lower (py "dog")].
Proof.
  split; [vm_compute; reflexivity|].
  apply (hint_selects_class translations [py "собака"] (py "собака") (py "dog")).
  - vm_compute. constructor.
  - vm_compute. reflexivity.
  - reflexivity.
  - vm_compute. repeat constructor.
  - vm_compute. repeat constructor.
Defined.

(** X10 on the demonstration models. *)
Lemma detect_objects_classes_demo :
  yolo_detect_objects demo_models translations [Byte.x01]
  = Returned ([py "человек"; py "собака"],
              {[ py "человек" := 2%Z; py "собака" := 1%Z ]}, [Byte.x01])
  /\ NoDup [py "человек"; py "собака"].
Proof.
  assert (yolo_detect_objects demo_models translations [Byte.x01]
          = Returned ([py "человек"; py "собака"],
                      {[ py "человек" := 2%Z; py "собака" := 1%Z ]}, [Byte.x01])) as H
    by (vm_compute; reflexivity).
  split; [exact H|].
  destruct (detect_objects_classes demo_models translations [Byte.x01] _ _ _ H)
    as (boxes & _ & Hdup & _).
  exact Hdup.
Defined.

(** X11 on the demonstration models: two boxes count for "человек". *)
Lemma detect_objects_counts_demo :
  ({[ py "человек" := 2%Z; py "собака" := 1%Z ]} : gmap str Z) !! py "человек" = Some 2%Z
  /\ (1 <= 2)%Z
  /\ 2%Z = Z.of_nat
             (length
                (filter (counts_for (model_names demo_models) translations (py "человек"))
                   (default []
                      (Some [Box 0 false; Box 16 false; Box 0 false; Box 16 true])))).
Proof.
  split; [vm_compute; reflexivity|].
  apply (detect_objects_counts demo_models translations [Byte.x01]
           (Some [Box 0 false; Box 16 false; Box 0 false; Box 16 true])
           [py "человек"; py "собака"]
           {[ py "человек" := 2%Z; py "собака" := 1%Z ]} [Byte.x01]).
  - reflexivity.
  - vm_compute. reflexivity.
  - vm_compute. reflexivity.
Defined.

(** X12 on the demonstration models: the image of "собака". *)
Lemma segment_objects_image_demo :
  yolo_segment_objects demo_models translations [Byte.x01] [py "собака"] !! py "собака"
  = Some [Byte.x02]
  /\ py "собака" ∈ [py "собака"].
Proof.
  assert (yolo_segment_objects demo_models translations [Byte.x01] [py "собака"]
          !! py "собака" = Some [Byte.x02]) as H by (vm_compute; reflexivity).
  split; [exact H|].
  destruct (segment_objects_image demo_models translations [Byte.x01] [py "собака"]
              (py "собака") [Byte.x02] H) as [Hin _].
  exact Hin.
Defined.

(** X15 on a photo in which the detector finds a person and a dog. *)
Lemma handle_photo_detected_demo :
  detect_objects demo_detector [Byte.x01]
  = Returned ([py "человек"; py "собака"],
              {[ py "человек" := 2%Z; py "собака" := 1%Z ]}, [Byte.x01])
  /\ final (handle_photo (bot := demo_bot) 7 (Returned [Byte.x01]) ∅ [])
     = <[7%Z := waiting_session]> ∅.
Proof.
  split; [reflexivity|].
  exact (proj1 (handle_photo_detected (bot := demo_bot) demo_detector 7 [Byte.x01]
                  (py "человек") [py "собака"]
                  {[ py "человек" := 2%Z; py "собака" := 1%Z ]} [Byte.x01] ∅ []
                  eq_refl eq_refl eq_refl)).
Defined.

(** X18 on the demonstration models: a mask for "собака", then the summary. *)
Lemma perform_segmentation_delivers_demo :
  selected_classes (demo_session [Byte.x01]) = Some [py "собака"]
  /\ final (perform_segmentation (bot := yolo_bot) (demo_session [Byte.x01]) [])
     = set_state waiting_photo (demo_session [Byte.x01]).
Proof.
  split; [reflexivity|].
  destruct (perform_segmentation_delivers (bot := yolo_bot)
              (yolo_detector demo_models translations) [py "собака"] [Byte.x01]
              {[ py "человек" := 2%Z; py "собака" := 1%Z ]}
              (yolo_segment_objects demo_models translations [Byte.x01] [py "собака"])
              (demo_session [Byte.x01]) []
              eq_refl eq_refl eq_refl eq_refl eq_refl (fun _ _ => eq_refl))
    as (_ & Hfinal & _).
  exact Hfinal.
Defined.

(** X21 on the text "xyz123", which names no detected class. *)
Lemma handle_text_retry_unknown :
  parse_user_classes (py_lower (strip (py "xyz123"))) <> []
  /\ final (handle_text (bot := demo_bot) 7 (py "xyz123")
              {[ 7%Z := waiting_session ]} [])
     = {[ 7%Z := waiting_session ]}.
Proof.
  assert (parse_user_classes (py_lower (strip (py "xyz123"))) <> []) as Hne
    by (vm_compute; discriminate).
  split; [exact Hne|].
  destruct (handle_text_retry (bot := demo_bot) demo_detector 7 (py "xyz123")
              [py "человек"; py "собака"]
              {[ py "человек" := 2%Z; py "собака" := 1%Z ]}
              waiting_session {[ 7%Z := waiting_session ]} []
              eq_refl (lookup_singleton_eq _ _) eq_refl eq_refl eq_refl) as [_ H].
  destruct (H Hne) as [Hfinal _]; [vm_compute; reflexivity|].
  exact Hfinal.
Defined.

(** X22 on the text "dog". *)
Lemma handle_text_segments_dog :
  valid_classes
    (match_user_classes_to_detected translations
       (parse_user_classes (py_lower (strip (py "dog")))) [py "человек"; py "собака"])
  <> []
  /\ result (handle_text (bot := demo_bot) 7 (py "dog") {[ 7%Z := waiting_session ]} [])
     = Returned tt.
Proof.
  assert (valid_classes
            (match_user_classes_to_detected translations
               (parse_user_classes (py_lower (strip (py "dog"))))
               [py "человек"; py "собака"]) <> []) as Hne
    by (vm_compute; discriminate).
  split; [exact Hne|].
  rewrite (handle_text_segments (bot := demo_bot) demo_detector 7 (py "dog")
             [py "человек"; py "собака"]
             {[ py "человек" := 2%Z; py "собака" := 1%Z ]} [Byte.x01] ∅
             waiting_session {[ 7%Z := waiting_session ]} []
             eq_refl (lookup_singleton_eq _ _) eq_refl eq_refl eq_refl eq_refl
             Hne eq_refl (fun _ _ => eq_refl)).
  reflexivity.
Defined.

(** X23 on the demonstration models. *)
Lemma yolo_segmentation_completes_demo :
  detector (Bot := yolo_bot) = Some (yolo_detector demo_models translations)
  /\ final (perform_segmentation (bot := yolo_bot) (demo_session [Byte.x01]) [])
     = set_state waiting_photo (demo_session [Byte.x01]).
Proof.
  split; [reflexivity|].
  destruct (yolo_segmentation_completes (bot := yolo_bot) demo_models translations
              eq_refl [py "собака"] [Byte.x01]
              {[ py "человек" := 2%Z; py "собака" := 1%Z ]}
              (demo_session [Byte.x01]) []
              eq_refl eq_refl eq_refl (fun _ _ => eq_refl))
    as (_ & Hfinal & _).
  exact Hfinal.
Defined.

(** X24 on the demonstration models: two classes, each with its count. *)
Lemma yolo_photo_counts_demo :
  detector (Bot := yolo_bot) = Some (yolo_detector demo_models translations)
  /\ exists lines : list (str * Z),
       lines.*1 = [py "человек"; py "собака"]
       /\ Forall (fun line => (1 <= line.2)%Z) lines.
Proof.
  split; [reflexivity|].
  assert (yolo_detect_objects demo_models translations [Byte.x01]
          = Returned ([py "человек"; py "собака"],
                      {[ py "человек" := 2%Z; py "собака" := 1%Z ]}, [Byte.x01])) as H
    by (vm_compute; reflexivity).
  destruct (yolo_photo_counts (bot := yolo_bot) demo_models translations eq_refl
              7 [Byte.x01] (py "человек") [py "собака"]
              {[ py "человек" := 2%Z; py "собака" := 1%Z ]} [Byte.x01] ∅ []
              H (fun _ _ => eq_refl))
    as (lines & hint & more & _ & Hfst & _ & Hcounts).
  exists lines. split; [exact Hfst|].
  eapply Forall_impl; [exact Hcounts|]. intros line [Hpos _]. exact Hpos.
Defined.

End Instances.
